(** * Narrative-reasoning pipeline of the NOLAN creative assistant

    A shallow embedding of the agentic reasoning cycle
    (Context Aggregator, Insight Extractor, Reasoning Client,
    Intervention Planner, Cycle Orchestrator) and of the parts of the
    creative-assistant page ([src/Frontend/src/pages/creative-assistant.jsx])
    that consume its output.

    The Python services of the reasoning cycle
    ([Backend/app/services/creative_assistant/...]) are listed in the
    repository's README but are not part of the sources; the modules that
    embed them are modelled from the spec and say so in their doc comments.
    Confidences and ratios are kept as natural numbers in hundredths
    (0.6 is 60). *)

From Stdlib Require Import Arith Lia List String Bool Ascii.
From Stdlib Require Import Sorting.Sorted Sorting.Permutation.
Import ListNotations.
Open Scope string_scope.
Set Warnings "-register-all".

(** ** Structured data exchanged between components *)
Module Json.

(** Structured data as the upstream services and the HTTP layer exchange it. *)
Inductive json : Type :=
| JNull : json
| JBool : bool -> json
| JNum : nat -> json
| JStr : string -> json
| JArr : list json -> json
| JObj : list (string * json) -> json.

(** Key lookup in an object, first binding wins (as [dict.get]). *)
Fixpoint assoc (k : string) (kvs : list (string * json)) : option json :=
  match kvs with
  | [] => None
  | (k', v) :: rest => if String.eqb k k' then Some v else assoc k rest
  end.

Definition get (k : string) (j : json) : option json :=
  match j with
  | JObj kvs => assoc k kvs
  | _ => None
  end.

Definition as_nat (j : json) : option nat :=
  match j with JNum n => Some n | _ => None end.

Definition as_str (j : json) : option string :=
  match j with JStr s => Some s | _ => None end.

(** [traverse] of a decoder over an array. *)
Fixpoint map_opt {A B} (f : A -> option B) (l : list A) : option (list B) :=
  match l with
  | [] => Some []
  | x :: xs =>
      match f x, map_opt f xs with
      | Some y, Some ys => Some (y :: ys)
      | _, _ => None
      end
  end.

Definition as_str_list (j : json) : option (list string) :=
  match j with JArr xs => map_opt as_str xs | _ => None end.

End Json.
Import Json.

(** ** Decoding in an exception monad

    Decoding a payload of the wrong shape raises, as the Python decoders do
    ([KeyError], [TypeError]); the aggregator is the place that catches. *)
Module Exc.

Inductive exc (A : Type) : Type :=
| Ok : A -> exc A
| Raise : string -> exc A.
Arguments Ok {A} _.
Arguments Raise {A} _.

Definition bind {A B} (m : exc A) (f : A -> exc B) : exc B :=
  match m with Ok a => f a | Raise e => Raise e end.

Definition catch {A} (m : exc A) (h : string -> exc A) : exc A :=
  match m with Ok a => Ok a | Raise e => h e end.

Definition of_option {A} (err : string) (o : option A) : exc A :=
  match o with Some a => Ok a | None => Raise err end.

End Exc.
Import Exc.

Notation "x <- m ;; k" := (Exc.bind m (fun x => k))
  (at level 61, m at next level, right associativity).

(** ** Context Aggregator (4.1) *)
Module Context.

(** An upstream field: a value, or the explicit "unknown" sentinel. *)
Inductive field (A : Type) : Type :=
| Known : A -> field A
| Unknown : field A.
Arguments Known {A} _.
Arguments Unknown {A}.

Record progress := {
  chapter : field nat;
  paragraph : field nat;
  completion : field nat     (* completion ratio, hundredths *)
}.

Record language_signals := {
  pacing : field nat;
  tone : field string;
  voice : field string
}.

Record kg_state := {
  characters : list string;
  relationships : list string;
  themes : list string
}.

Record writer_prefs := {
  acceptance_rate : field nat;
  style_notes : field string
}.

Record trigger := {
  event_name : string;
  story_id : string;
  timestamp : nat
}.

Record snapshot := {
  snap_story_id : string;
  snap_progress : progress;
  snap_language : field language_signals;
  snap_kg : field kg_state;
  snap_continuity : field (list string);
  snap_prefs : field writer_prefs;
  snap_recent_scenes : list string;
  snap_trigger : trigger
}.

Record aggregator_config := { max_recent_scenes : nat }.

(** An optional key of an object payload: absent or ill-typed is [Unknown]. *)
Definition opt_key {A} (dec : json -> option A) (k : string) (j : json)
  : field A :=
  match get k j with
  | Some v => match dec v with Some a => Known a | None => Unknown end
  | None => Unknown
  end.

(** A list key of an object payload: absent is the empty list, present but
    ill-typed raises. *)
Definition list_key (k : string) (j : json) : exc (list string) :=
  match get k j with
  | None => Ok []
  | Some v => of_option ("malformed " ++ k) (as_str_list v)
  end.

Definition require_object (what : string) (j : json) : exc unit :=
  match j with JObj _ => Ok tt | _ => Raise ("malformed " ++ what) end.

(** Feed decoders, each may raise on a malformed payload. *)
Definition decode_language (j : json) : exc language_signals :=
  _ <- require_object "language signals" j ;;
  Ok {| pacing := opt_key as_nat "pacing" j;
        tone := opt_key as_str "tone" j;
        voice := opt_key as_str "voice" j |}.

Definition decode_progress (j : json) : exc progress :=
  _ <- require_object "progress" j ;;
  Ok {| chapter := opt_key as_nat "chapter" j;
        paragraph := opt_key as_nat "paragraph" j;
        completion := opt_key as_nat "completion" j |}.

Definition decode_kg (j : json) : exc kg_state :=
  _ <- require_object "knowledge graph" j ;;
  cs <- list_key "characters" j ;;
  rs <- list_key "relationships" j ;;
  ts <- list_key "themes" j ;;
  Ok {| characters := cs; relationships := rs; themes := ts |}.

Definition decode_continuity (j : json) : exc (list string) :=
  _ <- require_object "continuity" j ;;
  of_option "malformed flags"
    (match get "flags" j with Some v => as_str_list v | None => None end).

Definition decode_prefs (j : json) : exc writer_prefs :=
  _ <- require_object "writer preferences" j ;;
  Ok {| acceptance_rate := opt_key as_nat "acceptance_rate" j;
        style_notes := opt_key as_str "style_notes" j |}.

(** The per-feed builder: an absent payload, or one whose decoder raises,
    is recorded as [Unknown]. *)
Definition feed {A} (dec : json -> exc A) (payload : option json)
  : exc (field A) :=
  match payload with
  | None => Ok Unknown
  | Some j => catch (a <- dec j ;; Ok (Known a)) (fun _ => Ok Unknown)
  end.

Definition unknown_progress : progress :=
  {| chapter := Unknown; paragraph := Unknown; completion := Unknown |}.

(** Progress markers are read from the narrative-language payload. *)
Definition progress_of (payload : option json) : exc progress :=
  f <- feed decode_progress payload ;;
  Ok (match f with Known p => p | Unknown => unknown_progress end).

(** The most recent [n] scenes, oldest dropped first. *)
Definition keep_recent {A} (n : nat) (l : list A) : list A :=
  List.skipn (List.length l - n) l.

(** Modelled from the spec: the Context Aggregator
    ([observation_synthesizer.py], not in the sources), section 4.1 and the
    inbound interfaces of section 6. Each of the four feeds goes through
    [feed]; the scenes are truncated to the most recent ones. *)
Definition aggregate (cfg : aggregator_config)
    (language kg continuity prefs : option json)
    (scenes : list string) (t : trigger) : exc snapshot :=
  p <- progress_of language ;;
  l <- feed decode_language language ;;
  g <- feed decode_kg kg ;;
  c <- feed decode_continuity continuity ;;
  w <- feed decode_prefs prefs ;;
  Ok {| snap_story_id := story_id t;
        snap_progress := p;
        snap_language := l;
        snap_kg := g;
        snap_continuity := c;
        snap_prefs := w;
        snap_recent_scenes := keep_recent (max_recent_scenes cfg) scenes;
        snap_trigger := t |}.

End Context.

(** ** Insight Extractor (4.2) *)
Module Insight.
Import Context.

Inductive pacing_trend := Slow | Steady | Fast | TrendUnknown.

Record insights := {
  pacing_trend_of : pacing_trend;
  arc_completion : field nat;
  thematic_consistency : field nat
}.

(** The neutral insight returned when nothing is known. *)
Definition neutral_insights : insights :=
  {| pacing_trend_of := TrendUnknown;
     arc_completion := Unknown;
     thematic_consistency := Unknown |}.

Section Rules.
(** The spec leaves the deterministic rules open (9, open question); they
    are parameters of the extractor. *)
Variable classify_pacing : nat -> pacing_trend.
Variable estimate_arc : nat -> field nat -> nat.
Variable theme_score : kg_state -> field (list string) -> nat.

(** Modelled from the spec: the Insight Extractor
    ([narrative_interpreter.py], not in the sources), section 4.2: each
    derived signal is computed from the snapshot field it reads, and is
    neutral when that field is unknown. *)
Definition extract (s : snapshot) : insights :=
  {| pacing_trend_of :=
       match snap_language s with
       | Known l =>
           match pacing l with
           | Known p => classify_pacing p
           | Unknown => TrendUnknown
           end
       | Unknown => TrendUnknown
       end;
     arc_completion :=
       match completion (snap_progress s) with
       | Known r => Known (estimate_arc r (chapter (snap_progress s)))
       | Unknown => Unknown
       end;
     thematic_consistency :=
       match snap_kg s with
       | Known g => Known (theme_score g (snap_continuity s))
       | Unknown => Unknown
       end |}.

End Rules.

(** A snapshot in which every optional field is unknown; only the story
    identifier, the trigger and the scene texts are given. *)
Definition unknown_snapshot (scenes : list string) (t : trigger) : snapshot :=
  {| snap_story_id := story_id t;
     snap_progress := unknown_progress;
     snap_language := Unknown;
     snap_kg := Unknown;
     snap_continuity := Unknown;
     snap_prefs := Unknown;
     snap_recent_scenes := scenes;
     snap_trigger := t |}.

End Insight.

(** ** Reasoning judgment (section 3) *)
Module Judgment.

Inductive severity := SevLow | SevMedium | SevHigh | SevCritical.
Inductive impact := ImpLow | ImpMedium | ImpHigh.

Record assessment := { category : string; rationale : string }.

Record concern := {
  concern_description : string;
  concern_severity : severity;
  concern_location : option nat
}.

Record opportunity := {
  opportunity_description : string;
  opportunity_impact : impact;
  opportunity_location : option nat
}.

Record judgment := {
  momentum_assessment : assessment;
  character_arc_assessment : assessment;
  emotional_trajectory : assessment;
  structural_concerns : list concern;
  thematic_health : assessment;
  opportunities : list opportunity;
  questions_for_writer : list string;
  overall_story_health : string;
  reasoning_confidence : nat
}.

Definition neutral_assessment : assessment :=
  {| category := "neutral"; rationale := "" |}.

(** Modelled from the spec: the fallback judgment of section 4.3 step 4. *)
Definition fallback_judgment : judgment :=
  {| momentum_assessment := neutral_assessment;
     character_arc_assessment := neutral_assessment;
     emotional_trajectory := neutral_assessment;
     structural_concerns := [];
     thematic_health := neutral_assessment;
     opportunities := [];
     questions_for_writer := [];
     overall_story_health := "unknown";
     reasoning_confidence := 0 |}.

End Judgment.

(** ** Reasoning Client (4.3) *)
Module Client.
Import Context Insight Judgment.

(** A provider reply, classified as in section 6: success with a raw body,
    retryable (timeout, 5xx, connection error), rate-limited with an
    advertised retry-after delay, or fatal. *)
Inductive provider_response :=
| Success : string -> provider_response
| Transient : provider_response
| RateLimited : nat -> provider_response
| FatalError : provider_response.

(** One call to the endpoint: its reply and how long it took. *)
Record call := { response : provider_response; latency : nat }.

(** Delays in seconds. *)
Record client_config := {
  max_attempts : nat;
  base_delay : nat;
  retry_after_cap : nat
}.

Definition default_client_config : client_config :=
  {| max_attempts := 3; base_delay := 1; retry_after_cap := 60 |}.

(** What the client hands back: the judgment, the delays it slept before
    each retry, and the total time spent. *)
Record client_outcome := {
  outcome_judgment : judgment;
  outcome_waits : list nat;
  outcome_elapsed : nat
}.

Section Client.
Variable build_prompt : snapshot -> insights -> string.
(** The strict schema parser and the lenient extraction (largest well-formed
    object substring); both are partial. *)
Variable strict_parse : string -> option judgment.
Variable lenient_parse : string -> option judgment.
(** Jitter added to the exponential backoff of the [k]-th attempt. *)
Variable jitter : nat -> nat.
(** The endpoint, as a function of the prompt and the attempt number. *)
Variable provider : string -> nat -> call.

Definition backoff (cfg : client_config) (k : nat) : nat :=
  base_delay cfg * 2 ^ k + jitter k.

(** Parsing layer: strict first, lenient second, no network call. *)
Definition parse_response (body : string) : option judgment :=
  match strict_parse body with
  | Some j => Some j
  | None => lenient_parse body
  end.

Definition judgment_of_body (body : string) : judgment :=
  match parse_response body with
  | Some j => j
  | None => fallback_judgment
  end.

(** [fuel] attempts left, [k] the number of the current attempt. *)
Fixpoint attempt_loop (cfg : client_config) (prompt : string)
    (fuel k : nat) : client_outcome :=
  match fuel with
  | 0 => {| outcome_judgment := fallback_judgment;
            outcome_waits := []; outcome_elapsed := 0 |}
  | S fuel' =>
      let c := provider prompt k in
      let retry (w : nat) :=
        match fuel' with
        | 0 => {| outcome_judgment := fallback_judgment;
                  outcome_waits := []; outcome_elapsed := latency c |}
        | S _ =>
            let r := attempt_loop cfg prompt fuel' (S k) in
            {| outcome_judgment := outcome_judgment r;
               outcome_waits := w :: outcome_waits r;
               outcome_elapsed := latency c + w + outcome_elapsed r |}
        end in
      match response c with
      | Success body =>
          {| outcome_judgment := judgment_of_body body;
             outcome_waits := []; outcome_elapsed := latency c |}
      | Transient => retry (backoff cfg k)
      | RateLimited d => retry (Nat.min d (retry_after_cap cfg))
      | FatalError =>
          {| outcome_judgment := fallback_judgment;
             outcome_waits := []; outcome_elapsed := latency c |}
      end
  end.

(** Modelled from the spec: the Reasoning Client ([grok_integration.py],
    not in the sources), section 4.3 steps 1-4 and the error taxonomy of
    section 7: bounded retries with exponential backoff and jitter on
    transient failures, the capped advertised delay on rate limits, strict
    then lenient parsing of a successful body, and the fallback judgment
    when nothing succeeds. *)
Definition reason (cfg : client_config) (s : snapshot) (i : insights)
  : client_outcome :=
  attempt_loop cfg (build_prompt s i) (max_attempts cfg) 0.

(** A call that did not yield a judgment: a provider failure, or a body
    that neither parser accepts. *)
Definition call_failed (r : provider_response) : Prop :=
  match r with
  | Success body => strict_parse body = None /\ lenient_parse body = None
  | _ => True
  end.

End Client.
End Client.

(** ** Intervention Planner (4.4) *)
Module Planner.
Import Context Judgment.

Record planner_config := {
  min_confidence_threshold : nat;
  max_suggestions_per_cycle : nat;
  concern_weight : nat;
  opportunity_weight : nat
}.

(** The documented defaults: threshold 0.6, at most 5 suggestions. *)
Definition default_planner_config : planner_config :=
  {| min_confidence_threshold := 60; max_suggestions_per_cycle := 5;
     concern_weight := 1; opportunity_weight := 1 |}.

Definition severity_rank (s : severity) : nat :=
  match s with SevLow => 1 | SevMedium => 2 | SevHigh => 3 | SevCritical => 4 end.

Definition impact_rank (i : impact) : nat :=
  match i with ImpLow => 1 | ImpMedium => 2 | ImpHigh => 3 end.

Inductive source :=
| FromConcern : concern -> source
| FromOpportunity : opportunity -> source.

Record candidate := {
  origin : nat;              (* position in concerns ++ opportunities *)
  score : nat;
  cand_confidence : nat;
  cand_source : source
}.

Definition source_score (cfg : planner_config) (s : source) : nat :=
  match s with
  | FromConcern c => concern_weight cfg * severity_rank (concern_severity c)
  | FromOpportunity o => opportunity_weight cfg * impact_rank (opportunity_impact o)
  end.

(** Each concern and each opportunity gives one candidate; its confidence
    is inherited from the judgment. *)
Definition make_candidate (cfg : planner_config) (j : judgment)
    (p : nat * source) : candidate :=
  {| origin := fst p;
     score := source_score cfg (snd p);
     cand_confidence := reasoning_confidence j;
     cand_source := snd p |}.

Definition sources (j : judgment) : list source :=
  (map FromConcern (structural_concerns j) ++
   map FromOpportunity (opportunities j))%list.

Definition enumerate {A} (l : list A) : list (nat * A) :=
  combine (seq 0 (List.length l)) l.

Definition candidates (cfg : planner_config) (j : judgment) : list candidate :=
  map (make_candidate cfg j) (enumerate (sources j)).

(** Stable sort by descending score ([sorted(..., reverse=True)]): an
    element goes before every later element whose score is not larger. *)
Fixpoint insert_desc (x : candidate) (l : list candidate) : list candidate :=
  match l with
  | [] => [x]
  | y :: l' => if Nat.ltb (score x) (score y) then y :: insert_desc x l' else x :: l
  end.

Fixpoint sort_desc (l : list candidate) : list candidate :=
  match l with
  | [] => []
  | x :: l' => insert_desc x (sort_desc l')
  end.

(** Ranked, filtered on the confidence floor, capped. *)
Definition selected (cfg : planner_config) (j : judgment) : list candidate :=
  firstn (max_suggestions_per_cycle cfg)
    (filter (fun c => Nat.leb (min_confidence_threshold cfg) (cand_confidence c))
       (sort_desc (candidates cfg j))).

Record planned_intervention := {
  priority : nat;
  what : string;
  why : string;
  target_location : option nat;
  confidence : nat
}.

Record plan := {
  plan_story_id : string;
  plan_trigger_event : string;
  planned_interventions : list planned_intervention;
  why_these_interventions : string;
  plan_overall_story_health : string;
  plan_confidence : nat
}.

(** The target location: the one the judgment gives, else the current
    chapter of the snapshot. *)
Definition location_hint (s : snapshot) (given : option nat) : option nat :=
  match given with
  | Some l => Some l
  | None =>
      match chapter (snap_progress s) with
      | Known c => Some c
      | Unknown => None
      end
  end.

Definition to_intervention (s : snapshot) (p : nat * candidate)
  : planned_intervention :=
  let c := snd p in
  match cand_source c with
  | FromConcern k =>
      {| priority := S (fst p); what := concern_description k;
         why := "structural concern"; target_location :=
           location_hint s (concern_location k);
         confidence := cand_confidence c |}
  | FromOpportunity o =>
      {| priority := S (fst p); what := opportunity_description o;
         why := "opportunity"; target_location :=
           location_hint s (opportunity_location o);
         confidence := cand_confidence c |}
  end.

Definition to_interventions (s : snapshot) (l : list candidate)
  : list planned_intervention :=
  map (to_intervention s) (enumerate l).

Definition unavailable_rationale : string :=
  "Reasoning was unavailable this cycle".
Definition healthy_rationale : string :=
  "No concerns or opportunities: the story is in good health".
Definition low_confidence_rationale : string :=
  "No suggestion reached the confidence threshold".
Definition ranked_rationale : string :=
  "Interventions ranked by priority".

(** Modelled from the spec: the Intervention Planner
    ([intervention_planner.py], not in the sources), section 4.4: the
    fallback case (confidence 0) gives an empty plan; a threshold outside
    [0,1] is malformed configuration, a defect; otherwise candidates are
    ranked, filtered on the floor and capped. *)
Definition plan_interventions (cfg : planner_config) (j : judgment)
    (s : snapshot) : exc plan :=
  let base lst why conf :=
    {| plan_story_id := snap_story_id s;
       plan_trigger_event := event_name (snap_trigger s);
       planned_interventions := lst;
       why_these_interventions := why;
       plan_overall_story_health := overall_story_health j;
       plan_confidence := conf |} in
  if Nat.eqb (reasoning_confidence j) 0 then Ok (base [] unavailable_rationale 0)
  else if Nat.ltb 100 (min_confidence_threshold cfg) then
    Raise "malformed configuration: min_confidence_threshold"
  else
    let sel := selected cfg j in
    let why :=
      match candidates cfg j, sel with
      | [], _ => healthy_rationale
      | _, [] => low_confidence_rationale
      | _, _ => ranked_rationale
      end in
    Ok (base (to_interventions s sel) why (reasoning_confidence j)).

End Planner.

(** ** Cycle Orchestrator (4.5) *)
Module Orchestrator.
Import Context Insight Judgment Client Planner.

Record cycle_config := {
  aggregator_cfg : aggregator_config;
  client_cfg : client_config;
  planner_cfg : planner_config;
  wall_clock_budget : nat
}.

(** The cycle ends with a plan and the time spent, or in [FAILED] on a
    component defect. *)
Inductive cycle_result :=
| Complete : plan -> nat -> cycle_result
| Failed : string -> cycle_result.

Section Cycle.
Variable classify_pacing : nat -> pacing_trend.
Variable estimate_arc : nat -> field nat -> nat.
Variable theme_score : kg_state -> field (list string) -> nat.
Variable build_prompt : snapshot -> insights -> string.
Variable strict_parse lenient_parse : string -> option judgment.
Variable jitter : nat -> nat.
Variable provider : string -> nat -> call.

(** INTERPRETING then REASONING on a snapshot. *)
Definition reasoning_outcome (cfg : cycle_config) (s : snapshot)
  : client_outcome :=
  reason build_prompt strict_parse lenient_parse jitter provider
    (client_cfg cfg) s (extract classify_pacing estimate_arc theme_score s).

(** The REASON step under the wall-clock budget: a client that has not
    returned by the budget is abandoned and the fallback judgment used. *)
Definition reason_within_budget (cfg : cycle_config) (s : snapshot)
  : judgment * nat :=
  let o := reasoning_outcome cfg s in
  if Nat.ltb (wall_clock_budget cfg) (outcome_elapsed o)
  then (fallback_judgment, wall_clock_budget cfg)
  else (outcome_judgment o, outcome_elapsed o).

(** Modelled from the spec: the Cycle Orchestrator
    ([agentic_reasoning_engine.py], not in the sources), section 4.5:
    AGGREGATING, INTERPRETING, REASONING, PLANNING in sequence, [FAILED]
    only from a component defect. *)
Definition run_cycle (cfg : cycle_config)
    (language kg continuity prefs : option json)
    (scenes : list string) (t : trigger) : cycle_result :=
  match aggregate (aggregator_cfg cfg) language kg continuity prefs scenes t with
  | Raise e => Failed e
  | Ok s =>
      let '(j, elapsed) := reason_within_budget cfg s in
      match plan_interventions (planner_cfg cfg) j s with
      | Ok p => Complete p elapsed
      | Raise e => Failed e
      end
  end.

End Cycle.

(** A plan the HTTP layer can hand out: confidences in [0,1] and
    priorities numbered 1, 2, ... in list order. *)
Definition plan_well_formed (p : plan) : Prop :=
  plan_confidence p <= 100 /\
  Forall (fun i => confidence i <= 100) (planned_interventions p) /\
  map priority (planned_interventions p)
    = seq 1 (List.length (planned_interventions p)).

End Orchestrator.

(** ** External representation of a plan (section 6, outbound) *)
Module Serial.
Import Planner.

Definition intervention_fields : list string :=
  ["priority"; "what"; "why"; "target_location"; "confidence"].

Definition plan_fields : list string :=
  ["story_id"; "trigger_event"; "planned_interventions";
   "why_these_interventions"; "overall_story_health"; "plan_confidence"].

(** Modelled from the spec: the JSON form of a PlannedIntervention
    (pydantic [model_dump], not in the sources); an absent location is
    [null]. *)
Definition serialize_intervention (i : planned_intervention) : json :=
  JObj [("priority", JNum (priority i));
        ("what", JStr (what i));
        ("why", JStr (why i));
        ("target_location",
           match target_location i with Some l => JNum l | None => JNull end);
        ("confidence", JNum (confidence i))].

(** Modelled from the spec: the JSON form of an InterventionPlan, with the
    field names of the [InterventionPlan] model listed in the README. *)
Definition serialize_plan (p : plan) : json :=
  JObj [("story_id", JStr (plan_story_id p));
        ("trigger_event", JStr (plan_trigger_event p));
        ("planned_interventions",
           JArr (map serialize_intervention (planned_interventions p)));
        ("why_these_interventions", JStr (why_these_interventions p));
        ("overall_story_health", JStr (plan_overall_story_health p));
        ("plan_confidence", JNum (plan_confidence p))].

Definition opt_bind {A B} (o : option A) (f : A -> option B) : option B :=
  match o with Some a => f a | None => None end.

Definition field_of {A} (dec : json -> option A) (k : string) (j : json)
  : option A :=
  opt_bind (get k j) dec.

(** A nullable number: [null] or a number. *)
Definition as_opt_nat (j : json) : option (option nat) :=
  match j with JNull => Some None | JNum n => Some (Some n) | _ => None end.

(** Modelled from the spec: validation of a PlannedIntervention. *)
Definition parse_intervention (j : json) : option planned_intervention :=
  opt_bind (field_of as_nat "priority" j) (fun pr =>
  opt_bind (field_of as_str "what" j) (fun w =>
  opt_bind (field_of as_str "why" j) (fun y =>
  opt_bind (field_of as_opt_nat "target_location" j) (fun loc =>
  opt_bind (field_of as_nat "confidence" j) (fun c =>
  Some {| priority := pr; what := w; why := y;
          target_location := loc; confidence := c |}))))).

Definition as_interventions (j : json) : option (list planned_intervention) :=
  match j with JArr xs => map_opt parse_intervention xs | _ => None end.

(** Modelled from the spec: validation of an InterventionPlan. *)
Definition parse_plan (j : json) : option plan :=
  opt_bind (field_of as_str "story_id" j) (fun sid =>
  opt_bind (field_of as_str "trigger_event" j) (fun ev =>
  opt_bind (field_of as_interventions "planned_interventions" j) (fun ivs =>
  opt_bind (field_of as_str "why_these_interventions" j) (fun why =>
  opt_bind (field_of as_str "overall_story_health" j) (fun h =>
  opt_bind (field_of as_nat "plan_confidence" j) (fun c =>
  Some {| plan_story_id := sid; plan_trigger_event := ev;
          planned_interventions := ivs; why_these_interventions := why;
          plan_overall_story_health := h; plan_confidence := c |})))))).

Definition keys (j : json) : list string :=
  match j with JObj kvs => map fst kvs | _ => [] end.

End Serial.

(** ** Creative-assistant page ([creative-assistant.jsx]) *)
Module Page.

(** [Array.prototype.slice(b, e)] for non-negative [b] and [e]. *)
Definition slice {A} (l : list A) (b e : nat) : list A :=
  firstn (e - b) (skipn b l).

(** [Array.prototype.map] with the element index. *)
Definition map_idx {A B} (f : nat -> A -> B) (l : list A) : list B :=
  map (fun p => f (fst p) (snd p)) (combine (seq 0 (List.length l)) l).

(** The fields of a quick-analyze response the insight panel reads. *)
Record intervention_item := { item_what : string }.

Record quick_analyze_response := {
  overall_story_health : string;
  plan_confidence : nat;
  interventions : list intervention_item
}.

(** The cards of the "Insights" box, as [(key, text)] pairs:
    [insightPanelOpen && insights && ...
       insights.interventions.slice(0, 3).map((item, idx) => ... key={idx}
       ... {item.what})]. *)
Definition insight_cards (insight_panel_open : bool)
    (insights : option quick_analyze_response) : list (nat * string) :=
  if insight_panel_open then
    match insights with
    | Some d =>
        map_idx (fun idx item => (idx, item_what item))
          (slice (interventions d) 0 3)
    | None => []
    end
  else [].

(** The editor state touched by the improve-flow handlers. *)
Record page_state := {
  content : string;
  original_content : string;
  show_keep_undo_controls : bool;
  improving : bool
}.

(** Outcome of the [improve-flow] request: [response.ok] with its
    [data.improved], a non-ok response, or a thrown fetch. *)
Inductive improve_response :=
| ImproveOk : string -> improve_response
| ImproveNotOk : improve_response
| ImproveError : improve_response.

(** Whitespace removed by [String.prototype.trim] (its ASCII part). *)
Definition js_space (c : ascii) : bool :=
  match nat_of_ascii c with
  | 9 | 10 | 11 | 12 | 13 | 32 => true
  | _ => false
  end.

Definition trim_is_empty (s : string) : bool :=
  forallb js_space (list_ascii_of_string s).

(** [handleImproveFlow] up to its [await]: the guard
    [if (!content.trim()) return;] and [setImproving(true)]; it yields the
    [content] captured by the handler's closure. *)
Definition improve_flow_start (st : page_state) : option (string * page_state) :=
  if trim_is_empty (content st) then None
  else Some (content st,
             {| content := content st;
                original_content := original_content st;
                show_keep_undo_controls := show_keep_undo_controls st;
                improving := true |}).

(** [handleImproveFlow] after the [await], on the state current when the
    request settles: on [response.ok], [setOriginalContent(content)] with
    the captured [content], [setContent(data.improved)],
    [setShowKeepUndoControls(true)]; in every case [setImproving(false)]. *)
Definition improve_flow_finish (captured : string) (r : improve_response)
    (st : page_state) : page_state :=
  match r with
  | ImproveOk improved =>
      {| content := improved;
         original_content := captured;
         show_keep_undo_controls := true;
         improving := false |}
  | ImproveNotOk | ImproveError =>
      {| content := content st;
         original_content := original_content st;
         show_keep_undo_controls := show_keep_undo_controls st;
         improving := false |}
  end.

(** [handleUndoChanges]: [setContent(originalContent)],
    [setShowKeepUndoControls(false)], [setOriginalContent('')]. *)
Definition handle_undo_changes (st : page_state) : page_state :=
  {| content := original_content st;
     original_content := "";
     show_keep_undo_controls := false;
     improving := improving st |}.

End Page.

(** ** JavaScript strings

    A JS string as its sequence of code units; the texts handled here are
    kept as [string] and sliced through their [ascii] units. *)
Module Js.

Definition units (s : string) : list ascii := list_ascii_of_string s.
Definition of_units (l : list ascii) : string := string_of_list_ascii l.

(** [s.slice(b, e)] for non-negative [b], [e]: clamped to the string. *)
Definition str_slice (s : string) (b e : nat) : string :=
  of_units (firstn (e - b) (skipn b (units s))).

(** [s.slice(b)]. *)
Definition str_slice_from (s : string) (b : nat) : string :=
  of_units (skipn b (units s)).

(** [s.split(sep)] for a one-character separator. *)
Fixpoint split_units (sep : ascii) (cur : list ascii) (l : list ascii)
  : list string :=
  match l with
  | [] => [of_units (rev cur)]
  | c :: l' =>
      if Ascii.eqb c sep then of_units (rev cur) :: split_units sep [] l'
      else split_units sep (c :: cur) l'
  end.

Definition split_char (sep : ascii) (s : string) : list string :=
  split_units sep [] (units s).

(** [parts.join(sep)] for a one-character separator. *)
Definition join_char (sep : ascii) (parts : list string) : string :=
  String.concat (String sep EmptyString) parts.

(** JS truthiness of a structured value. *)
Definition truthy (j : json) : bool :=
  match j with
  | JNull => false
  | JBool b => b
  | JNum n => negb (Nat.eqb n 0)
  | JStr s => negb (String.eqb s "")
  | JArr _ | JObj _ => true
  end.

End Js.

(** ** Grammar checking in the editor *)
Module Grammar.

(** The fields of a LanguageTool match the editor reads. *)
Record grammar_match := {
  offset : nat;
  match_length : nat;
  msgId : string;
  rule_id : string;
  message : string;
  replacements : list string   (* the [value]s of [match.replacements] *)
}.

(** [handleApplyGrammarFix(match, replacement)] of [creative-assistant.jsx]:
    the new content and the new list of matches. *)
Definition apply_grammar_fix (content : string) (matches : list grammar_match)
    (m : grammar_match) (replacement : string)
  : string * list grammar_match :=
  let prefix := Js.str_slice content 0 (offset m) in
  let suffix := Js.str_slice_from content (offset m + match_length m) in
  ((prefix ++ replacement ++ suffix)%string,
   filter (fun x => negb (Nat.eqb (offset x) (offset m))) matches).

(** [[...matches].sort((a, b) => a.offset - b.offset)]: a stable sort by
    ascending offset. *)
Fixpoint insert_by_offset (x : grammar_match) (l : list grammar_match)
  : list grammar_match :=
  match l with
  | [] => [x]
  | y :: l' =>
      if Nat.ltb (offset y) (offset x) then y :: insert_by_offset x l'
      else x :: l
  end.

Fixpoint sort_by_offset (l : list grammar_match) : list grammar_match :=
  match l with
  | [] => []
  | x :: l' => insert_by_offset x (sort_by_offset l')
  end.

Record segment := {
  seg_text : string;
  isError : bool;
  seg_match : option grammar_match
}.

Definition plain (t : string) : segment :=
  {| seg_text := t; isError := false; seg_match := None |}.

(** The [forEach] over the sorted matches, from [lastIndex], then the
    remaining text. *)
Fixpoint segments_from (text : string) (ms : list grammar_match)
    (lastIndex : nat) : list segment :=
  match ms with
  | [] =>
      if Nat.ltb lastIndex (String.length text)
      then [plain (Js.str_slice_from text lastIndex)]
      else []
  | m :: ms' =>
      ((if Nat.ltb lastIndex (offset m)
        then [plain (Js.str_slice text lastIndex (offset m))]
        else []) ++
       [{| seg_text := Js.str_slice text (offset m) (offset m + match_length m);
           isError := true; seg_match := Some m |}] ++
       segments_from text ms' (offset m + match_length m))%list
  end.

(** [segments] of [GrammarOverlay]. *)
Definition segments (text : string) (matches : list grammar_match)
  : list segment :=
  match matches with
  | [] => [plain text]
  | _ => segments_from text (sort_by_offset matches) 0
  end.


(** How far each match starts before the end of the previous one, summed
    from [lastIndex]. *)
Fixpoint overlap (lastIndex : nat) (ms : list grammar_match) : nat :=
  match ms with
  | [] => 0
  | m :: ms' => (lastIndex - offset m) + overlap (offset m + match_length m) ms'
  end.

End Grammar.

(** ** Line gutter *)
Module Gutter.

(** [lineCount] of [LineGutter]: [content.split('\n').length]. *)
Definition line_count (content : string) : nat :=
  List.length (Js.split_char "010"%char content).

End Gutter.

(** ** Autocomplete

    [autocompleteService.predict] and the [useAutocomplete] hook. Each run
    of the effect that schedules a prediction gets a fresh number, shared
    by its [AbortController] and its timer; the state records which
    controllers have been aborted, the timers still pending and the
    predictions in flight, each with the [text] its callback captured. *)
Module Autocomplete.

(** What the prediction request gives when it is not aborted: the
    [suggestion] field of the response (a string, or absent), or an error. *)
Inductive predict_outcome :=
| Predicted (suggestion : option string)
| PredictFailed.

(** [autocompleteService.predict]: an aborted request is rejected with a
    cancellation, caught like any error. [None] is [undefined]. *)
Definition predict (aborted : bool) (o : predict_outcome) : option string :=
  if aborted then Some ""
  else match o with
       | Predicted r => r
       | PredictFailed => Some ""
       end.

Record state := {
  text : string;
  enabled : bool;
  suggestion : string;
  last_request : option nat;          (* lastRequestRef.current *)
  cleanup : option nat;               (* the controller of the last effect
                                         run that returned a cleanup *)
  timers : list (nat * string);
  in_flight : list (nat * string);
  aborted : list nat;
  next_id : nat
}.

Definition set_suggestion (v : string) (s : state) : state :=
  {| text := text s; enabled := enabled s; suggestion := v;
     last_request := last_request s; cleanup := cleanup s; timers := timers s;
     in_flight := in_flight s; aborted := aborted s; next_id := next_id s |}.

Definition abort (n : nat) (s : state) : state :=
  {| text := text s; enabled := enabled s; suggestion := suggestion s;
     last_request := last_request s; cleanup := cleanup s; timers := timers s;
     in_flight := in_flight s; aborted := n :: aborted s; next_id := next_id s |}.

Definition is_aborted (n : nat) (s : state) : bool :=
  existsb (Nat.eqb n) (aborted s).

Definition without (n : nat) (l : list (nat * string)) : list (nat * string) :=
  filter (fun p => negb (Nat.eqb (fst p) n)) l.

Definition find_id (n : nat) (l : list (nat * string)) : option string :=
  option_map snd (find (fun p => Nat.eqb (fst p) n) l).

(** The cleanup returned by the previous run: [clearTimeout(timeoutId);
    controller.abort()]. *)
Definition run_cleanup (s : state) : state :=
  match cleanup s with
  | None => s
  | Some n =>
      let s1 := abort n s in
      {| text := text s1; enabled := enabled s1; suggestion := suggestion s1;
         last_request := last_request s1; cleanup := None;
         timers := without n (timers s1); in_flight := in_flight s1;
         aborted := aborted s1; next_id := next_id s1 |}
  end.

(** The body of the effect, for the props held in the state. *)
Definition effect (s : state) : state :=
  if negb (enabled s) || String.eqb (text s) "" || Nat.ltb (String.length (text s)) 5
  then set_suggestion "" s
  else
    let s1 := match last_request s with Some m => abort m s | None => s end in
    let n := next_id s1 in
    {| text := text s1; enabled := enabled s1; suggestion := "";
       last_request := Some n; cleanup := Some n;
       timers := (n, text s1) :: timers s1; in_flight := in_flight s1;
       aborted := aborted s1; next_id := S n |}.

(** The hook on first render. *)
Definition mount (t : string) (e : bool) : state :=
  effect {| text := t; enabled := e; suggestion := ""; last_request := None;
            cleanup := None; timers := []; in_flight := []; aborted := [];
            next_id := 0 |}.

(** [acceptSuggestion()]: the text to add, if any, and the new state. *)
Definition accept_suggestion (s : state) : option string * state :=
  if negb (String.eqb (suggestion s) "")
  then (Some (suggestion s), set_suggestion "" s)
  else (None, s).

Inductive event :=
| SetProps (t : string) (e : bool)      (* a render with these arguments *)
| TimerFires (n : nat)
| Respond (n : nat) (o : predict_outcome)
| Accept                                (* acceptSuggestion() *)
| Clear.                                (* clearSuggestion() *)

Definition step (s : state) (ev : event) : state :=
  match ev with
  | SetProps t e =>
      if String.eqb t (text s) && Bool.eqb e (enabled s) then s
      else
        let s1 := run_cleanup s in
        effect {| text := t; enabled := e; suggestion := suggestion s1;
                  last_request := last_request s1; cleanup := cleanup s1;
                  timers := timers s1; in_flight := in_flight s1;
                  aborted := aborted s1; next_id := next_id s1 |}
  | TimerFires n =>
      match find_id n (timers s) with
      | None => s
      | Some t =>
          {| text := text s; enabled := enabled s; suggestion := suggestion s;
             last_request := last_request s; cleanup := cleanup s;
             timers := without n (timers s); in_flight := (n, t) :: in_flight s;
             aborted := aborted s; next_id := next_id s |}
      end
  | Respond n o =>
      match find_id n (in_flight s) with
      | None => s
      | Some _ =>
          let result := predict (is_aborted n s) o in
          let s1 :=
            {| text := text s; enabled := enabled s; suggestion := suggestion s;
               last_request := last_request s; cleanup := cleanup s;
               timers := timers s; in_flight := without n (in_flight s);
               aborted := aborted s; next_id := next_id s |} in
          if is_aborted n s then s1
          else set_suggestion (match result with Some r => r | None => "" end) s1
      end
  | Accept => snd (accept_suggestion s)
  | Clear => set_suggestion "" s
  end.

Definition run (s : state) (evs : list event) : state := fold_left step evs s.

Definition reachable (s : state) : Prop :=
  exists t e evs, s = run (mount t e) evs.

End Autocomplete.

(** ** Tab in the editor *)
Module Editor.

(** [handleKeyDown] of [creative-assistant.jsx]: whether the default is
    prevented, the new content and the autocomplete state. *)
Definition handle_key_down (key content : string) (ac : Autocomplete.state)
  : bool * string * Autocomplete.state :=
  if String.eqb key "Tab" && negb (String.eqb (Autocomplete.suggestion ac) "")
  then
    let (added, ac1) := Autocomplete.accept_suggestion ac in
    match added with
    | Some a =>
        if negb (String.eqb a "") then (true, (content ++ a)%string, ac1)
        else (true, content, ac1)
    | None => (true, content, ac1)
    end
  else (false, content, ac).

End Editor.

(** ** Grammar checking

    [grammarService.checkGrammar] and the [useGrammarCheck] hook, in the
    same style: the [matches] state is the JSON value the hook stores. *)
Module GrammarCheck.

(** What the check request gives when it is not aborted: the response's
    [data], or an error. *)
Inductive check_outcome :=
| Checked (data : json)
| CheckFailed.

(** [grammarService.checkGrammar]: [null] when cancelled, [{ matches: [] }]
    on any other error. *)
Definition check_grammar (aborted : bool) (o : check_outcome) : json :=
  if aborted then JNull
  else match o with
       | Checked data => data
       | CheckFailed => JObj [("matches", JArr [])]
       end.

(** [result && result.matches]: the matches to store, if truthy. *)
Definition matches_of (result : json) : option json :=
  if Js.truthy result then
    match get "matches" result with
    | Some m => if Js.truthy m then Some m else None
    | None => None
    end
  else None.

Record state := {
  text : string;
  matches : json;
  isChecking : bool;
  controller_ref : option nat;        (* abortControllerRef.current *)
  cleanup : option nat;
  timers : list (nat * string);
  in_flight : list (nat * string);
  aborted : list nat;
  next_id : nat
}.

Definition with_text (t : string) (s : state) : state :=
  {| text := t; matches := matches s; isChecking := isChecking s;
     controller_ref := controller_ref s; cleanup := cleanup s; timers := timers s;
     in_flight := in_flight s; aborted := aborted s; next_id := next_id s |}.

Definition set_matches (m : json) (s : state) : state :=
  {| text := text s; matches := m; isChecking := isChecking s;
     controller_ref := controller_ref s; cleanup := cleanup s; timers := timers s;
     in_flight := in_flight s; aborted := aborted s; next_id := next_id s |}.

Definition set_checking (b : bool) (s : state) : state :=
  {| text := text s; matches := matches s; isChecking := b;
     controller_ref := controller_ref s; cleanup := cleanup s; timers := timers s;
     in_flight := in_flight s; aborted := aborted s; next_id := next_id s |}.

Definition abort_ref (s : state) : state :=
  match controller_ref s with
  | None => s
  | Some n =>
      {| text := text s; matches := matches s; isChecking := isChecking s;
         controller_ref := controller_ref s; cleanup := cleanup s;
         timers := timers s; in_flight := in_flight s; aborted := n :: aborted s;
         next_id := next_id s |}
  end.

Definition is_aborted (n : nat) (s : state) : bool :=
  existsb (Nat.eqb n) (aborted s).

(** The cleanup: [clearTimeout(timeoutId)], then abort whatever controller
    the ref holds. *)
Definition run_cleanup (s : state) : state :=
  match cleanup s with
  | None => s
  | Some n =>
      let s1 := abort_ref s in
      {| text := text s1; matches := matches s1; isChecking := isChecking s1;
         controller_ref := controller_ref s1; cleanup := None;
         timers := Autocomplete.without n (timers s1); in_flight := in_flight s1;
         aborted := aborted s1; next_id := next_id s1 |}
  end.

Definition effect (s : state) : state :=
  if String.eqb (text s) "" || Nat.ltb (String.length (text s)) 10
  then set_matches (JArr []) s
  else
    let s1 := abort_ref s in
    let n := next_id s1 in
    {| text := text s1; matches := matches s1; isChecking := isChecking s1;
       controller_ref := Some n; cleanup := Some n;
       timers := (n, text s1) :: timers s1; in_flight := in_flight s1;
       aborted := aborted s1; next_id := S n |}.

Definition mount (t : string) : state :=
  effect {| text := t; matches := JArr []; isChecking := false;
            controller_ref := None; cleanup := None; timers := [];
            in_flight := []; aborted := []; next_id := 0 |}.

Inductive event :=
| SetText (t : string)
| TimerFires (n : nat)
| Respond (n : nat) (o : check_outcome).

Definition step (s : state) (ev : event) : state :=
  match ev with
  | SetText t =>
      if String.eqb t (text s) then s
      else effect (with_text t (run_cleanup s))
  | TimerFires n =>
      match Autocomplete.find_id n (timers s) with
      | None => s
      | Some t =>
          {| text := text s; matches := matches s; isChecking := true;
             controller_ref := controller_ref s; cleanup := cleanup s;
             timers := Autocomplete.without n (timers s);
             in_flight := (n, t) :: in_flight s;
             aborted := aborted s; next_id := next_id s |}
      end
  | Respond n o =>
      match Autocomplete.find_id n (in_flight s) with
      | None => s
      | Some _ =>
          let result := check_grammar (is_aborted n s) o in
          let s1 :=
            {| text := text s; matches := matches s; isChecking := isChecking s;
               controller_ref := controller_ref s; cleanup := cleanup s;
               timers := timers s;
               in_flight := Autocomplete.without n (in_flight s);
               aborted := aborted s; next_id := next_id s |} in
          let s2 := match matches_of result with
                    | Some m => set_matches m s1
                    | None => s1
                    end in
          if is_aborted n s then s2 else set_checking false s2
      end
  end.

Definition run (s : state) (evs : list event) : state := fold_left step evs s.

Definition reachable (s : state) : Prop :=
  exists t evs, s = run (mount t) evs.

End GrammarCheck.

(** ** The other handlers that set the editor content *)
Module PageHandlers.
Import Page.

Definition set_content (v : string) (st : page_state) : page_state :=
  {| content := v;
     original_content := original_content st;
     show_keep_undo_controls := show_keep_undo_controls st;
     improving := improving st |}.

(** The outcome of the [rewrite] request: [response.ok] with
    [data.rewritten], a non-ok response, or a thrown fetch. *)
Inductive rewrite_response :=
| RewriteOk : string -> rewrite_response
| RewriteNotOk : rewrite_response
| RewriteError : rewrite_response.

(** [handleRewrite] once its request settles: [setContent(data.rewritten)]
    on [response.ok]; its [rewriting] flag is state of its own. *)
Definition rewrite_finish (r : rewrite_response) (st : page_state) : page_state :=
  match r with
  | RewriteOk rewritten => set_content rewritten st
  | RewriteNotOk | RewriteError => st
  end.

(** The outcome of the [upload-file] request: [response.ok] with
    [data.text] and [data.filename], a non-ok response, or a thrown fetch. *)
Inductive upload_response :=
| UploadOk : string -> string -> upload_response
| UploadNotOk : upload_response
| UploadError : upload_response.

(** [handleFileUpload] once its request settles: [setContent(data.text)]
    on [response.ok] ([setUploadedFile] and [uploading] are state of their
    own). *)
Definition upload_finish (r : upload_response) (st : page_state) : page_state :=
  match r with
  | UploadOk text _ => set_content text st
  | UploadNotOk | UploadError => st
  end.

(** What else changes the content while the Keep/Undo controls show:
    typing in the textarea ([onChange] sets [e.target.value]), a rewrite
    or an upload that settles. *)
Inductive content_change :=
| Typed : string -> content_change
| Rewritten : rewrite_response -> content_change
| Uploaded : upload_response -> content_change.

Definition apply_change (st : page_state) (c : content_change) : page_state :=
  match c with
  | Typed v => set_content v st
  | Rewritten r => rewrite_finish r st
  | Uploaded r => upload_finish r st
  end.

Definition apply_changes (st : page_state) (cs : list content_change) : page_state :=
  fold_left apply_change cs st.

End PageHandlers.

(** * Properties *)

(** ** Context Aggregator *)
Module ContextFacts.
Import Context.

(** What [feed] records for a payload: the decoded value, or [Unknown]. *)
Definition feed_value {A} (dec : json -> exc A) (payload : option json)
  : field A :=
  match payload with
  | None => Unknown
  | Some j => match dec j with Ok a => Known a | Raise _ => Unknown end
  end.

(** A payload that is absent, or whose decoder raises. *)
Definition absent_or_malformed {A} (dec : json -> exc A) (payload : option json)
  : Prop :=
  match payload with
  | None => True
  | Some j => exists e, dec j = Raise e
  end.

Lemma feed_ok {A} (dec : json -> exc A) (payload : option json) :
  feed dec payload = Ok (feed_value dec payload).
Proof.
  destruct payload as [j|]; [|reflexivity].
  simpl. destruct (dec j); reflexivity.
Qed.

Lemma feed_value_absent {A} (dec : json -> exc A) (payload : option json) :
  absent_or_malformed dec payload -> feed_value dec payload = Unknown.
Proof.
  destruct payload as [j|]; simpl; [|reflexivity].
  intros [e He]. rewrite He. reflexivity.
Qed.

Lemma feed_value_decoded {A} (dec : json -> exc A) (j : json) (a : A) :
  dec j = Ok a -> feed_value dec (Some j) = Known a.
Proof. intros H. simpl. rewrite H. reflexivity. Qed.

Lemma aggregate_eq cfg language kg continuity prefs scenes t :
  aggregate cfg language kg continuity prefs scenes t =
  Ok {| snap_story_id := story_id t;
        snap_progress :=
          match feed_value decode_progress language with
          | Known p => p | Unknown => unknown_progress end;
        snap_language := feed_value decode_language language;
        snap_kg := feed_value decode_kg kg;
        snap_continuity := feed_value decode_continuity continuity;
        snap_prefs := feed_value decode_prefs prefs;
        snap_recent_scenes := keep_recent (max_recent_scenes cfg) scenes;
        snap_trigger := t |}.
Proof.
  unfold aggregate, progress_of.
  rewrite !feed_ok. reflexivity.
Qed.

End ContextFacts.
Import Context.

(** C3. For every combination of present, absent or malformed payloads,
    scene list and trigger, the Context Aggregator returns a snapshot and
    never raises; each absent or malformed feed is recorded as the
    [Unknown] sentinel (a well-formed one as its decoded value), and the
    story identifier and trigger are always those of the trigger. *)
Theorem aggregate_total_with_sentinels :
  forall cfg language kg continuity prefs scenes t,
  exists s,
    aggregate cfg language kg continuity prefs scenes t = Ok s /\
    snap_story_id s = story_id t /\ snap_trigger s = t /\
    snap_language s = ContextFacts.feed_value decode_language language /\
    snap_kg s = ContextFacts.feed_value decode_kg kg /\
    snap_continuity s = ContextFacts.feed_value decode_continuity continuity /\
    snap_prefs s = ContextFacts.feed_value decode_prefs prefs /\
    (ContextFacts.absent_or_malformed decode_language language ->
       snap_language s = Unknown) /\
    (ContextFacts.absent_or_malformed decode_progress language ->
       snap_progress s = unknown_progress) /\
    (ContextFacts.absent_or_malformed decode_kg kg -> snap_kg s = Unknown) /\
    (ContextFacts.absent_or_malformed decode_continuity continuity ->
       snap_continuity s = Unknown) /\
    (ContextFacts.absent_or_malformed decode_prefs prefs ->
       snap_prefs s = Unknown).
Proof.
  intros cfg language kg continuity prefs scenes t.
  eexists. split; [apply ContextFacts.aggregate_eq|]. simpl.
  repeat split; try reflexivity;
    intros H; rewrite (ContextFacts.feed_value_absent _ _ H); reflexivity.
Qed.

(** ** Insight Extractor *)

(** C7. The Insight Extractor is a total function of the snapshot alone
    (no effect, no other input), equal snapshots give equal insights, and
    a snapshot in which every optional field is unknown, in particular the
    one the aggregator builds when every feed is absent, gives the neutral
    insight, whatever the extraction rules. *)
Theorem extract_total_deterministic_neutral :
  forall classify_pacing estimate_arc theme_score,
  let ex := Insight.extract classify_pacing estimate_arc theme_score in
  (forall s, exists i, ex s = i) /\
  (forall s1 s2, s1 = s2 -> ex s1 = ex s2) /\
  (forall scenes t, ex (Insight.unknown_snapshot scenes t)
                    = Insight.neutral_insights) /\
  (forall cfg scenes t s,
     Context.aggregate cfg None None None None scenes t = Exc.Ok s ->
     ex s = Insight.neutral_insights).
Proof.
  intros cp ea ts ex. repeat split.
  - intros s. exists (ex s). reflexivity.
  - intros s1 s2 ->. reflexivity.
  - intros cfg scenes t s H.
    rewrite ContextFacts.aggregate_eq in H. injection H as <-.
    reflexivity.
Qed.

(** ** Reasoning Client *)
Module ClientFacts.
Import Insight Judgment Client.

Section Loop.
Variable strict_parse lenient_parse : string -> option judgment.
Variable jitter : nat -> nat.
Variable provider : string -> nat -> call.
Variable cfg : client_config.
Variable prompt : string.

Lemma attempt_loop_all_failed :
  forall fuel k,
  (forall i, k <= i -> i < k + fuel ->
     call_failed strict_parse lenient_parse (response (provider prompt i))) ->
  outcome_judgment
    (attempt_loop strict_parse lenient_parse jitter provider cfg prompt fuel k)
  = fallback_judgment.
Proof.
  induction fuel as [|fuel IH]; intros k Hfail; [reflexivity|].
  simpl.
  assert (Hk : call_failed strict_parse lenient_parse
                 (response (provider prompt k))) by (apply Hfail; lia).
  destruct (response (provider prompt k)) as [body| |d|] eqn:Hr.
  - simpl in Hk. destruct Hk as [Hs Hl].
    unfold judgment_of_body, parse_response. rewrite Hs, Hl. reflexivity.
  - destruct fuel; [reflexivity|]. simpl.
    apply IH. intros i Hi1 Hi2. apply Hfail; lia.
  - destruct fuel; [reflexivity|]. simpl.
    apply IH. intros i Hi1 Hi2. apply Hfail; lia.
  - reflexivity.
Qed.

End Loop.
End ClientFacts.

(** C1. If every attempt the client makes fails (a provider failure, or a
    body that neither the strict nor the lenient parser accepts), the client
    returns the fallback judgment: neutral assessments, no concerns, no
    opportunities, confidence 0 and story health "unknown". The client is a
    total function returning a judgment record, which always carries its
    confidence; provider and parse failures are values, never raised. *)
Theorem reason_fallback_on_total_failure :
  forall build_prompt strict_parse lenient_parse jitter provider cfg s i,
  (forall k, k < Client.max_attempts cfg ->
     Client.call_failed strict_parse lenient_parse
       (Client.response (provider (build_prompt s i) k))) ->
  let j := Client.outcome_judgment
             (Client.reason build_prompt strict_parse lenient_parse jitter
                provider cfg s i) in
  j = Judgment.fallback_judgment /\
  Judgment.momentum_assessment j = Judgment.neutral_assessment /\
  Judgment.character_arc_assessment j = Judgment.neutral_assessment /\
  Judgment.emotional_trajectory j = Judgment.neutral_assessment /\
  Judgment.thematic_health j = Judgment.neutral_assessment /\
  Judgment.structural_concerns j = [] /\
  Judgment.opportunities j = [] /\
  Judgment.reasoning_confidence j = 0 /\
  Judgment.overall_story_health j = "unknown".
Proof.
  intros bp sp lp jit prov cfg s i Hfail j.
  assert (Hj : j = Judgment.fallback_judgment).
  { unfold j, Client.reason.
    apply ClientFacts.attempt_loop_all_failed.
    intros k _ Hk. apply Hfail. lia. }
  rewrite Hj. repeat split.
Qed.

(** Witness for C1: a provider that times out on every attempt. *)
Lemma reason_fallback_on_total_failure_witness :
  Client.outcome_judgment
    (Client.reason (fun _ _ => "prompt") (fun _ => None) (fun _ => None)
       (fun _ => 0)
       (fun _ _ => {| Client.response := Client.Transient;
                      Client.latency := 5 |})
       Client.default_client_config
       (Insight.unknown_snapshot []
          {| event_name := "new_scene_added"; story_id := "s1";
             timestamp := 0 |})
       Insight.neutral_insights) = Judgment.fallback_judgment.
Proof.
  apply (reason_fallback_on_total_failure (fun _ _ => "prompt")
           (fun _ => None) (fun _ => None) (fun _ => 0)
           (fun _ _ => {| Client.response := Client.Transient;
                          Client.latency := 5 |})
           Client.default_client_config).
  intros k _. simpl. exact I.
Defined.

(** C6. When the provider answers the first call with a rate-limit signal
    advertising a delay [D] and the second with a body that parses to a
    judgment [j], the client sleeps exactly [min D cap] between the two
    calls (so at least [D] whenever [D] is within the cap), instead of the
    exponential backoff, and returns [j], not the fallback. *)
Theorem reason_honours_retry_after :
  forall build_prompt strict_parse lenient_parse jitter provider cfg s i
         D lat1 lat2 body j,
  2 <= Client.max_attempts cfg ->
  provider (build_prompt s i) 0
    = {| Client.response := Client.RateLimited D; Client.latency := lat1 |} ->
  provider (build_prompt s i) 1
    = {| Client.response := Client.Success body; Client.latency := lat2 |} ->
  Client.parse_response strict_parse lenient_parse body = Some j ->
  let o := Client.reason build_prompt strict_parse lenient_parse jitter
             provider cfg s i in
  Client.outcome_judgment o = j /\
  Client.outcome_waits o = [Nat.min D (Client.retry_after_cap cfg)] /\
  (D <= Client.retry_after_cap cfg -> D <= hd 0 (Client.outcome_waits o)) /\
  Client.outcome_elapsed o
    = lat1 + Nat.min D (Client.retry_after_cap cfg) + lat2.
Proof.
  intros bp sp lp jit prov cfg s i D lat1 lat2 body j Hmax H0 H1 Hparse o.
  unfold o, Client.reason.
  destruct (Client.max_attempts cfg) as [|[|n]] eqn:Hm; [lia|lia|].
  simpl. rewrite H0. simpl. rewrite H1. simpl.
  unfold Client.judgment_of_body. rewrite Hparse. simpl.
  repeat split; try lia.
Qed.

Module ClientExamples.
Import Judgment Client.

Definition sample_trigger : trigger :=
  {| event_name := "new_scene_added"; story_id := "s1"; timestamp := 0 |}.

Definition sample_judgment : judgment :=
  {| momentum_assessment := {| category := "building"; rationale := "" |};
     character_arc_assessment := neutral_assessment;
     emotional_trajectory := neutral_assessment;
     structural_concerns := [];
     thematic_health := neutral_assessment;
     opportunities := [];
     questions_for_writer := [];
     overall_story_health := "good";
     reasoning_confidence := 80 |}.

(** A provider that is rate limited for 7 seconds, then succeeds. *)
Definition rate_limited_once (_ : string) (k : nat) : call :=
  match k with
  | 0 => {| response := RateLimited 7; latency := 1 |}
  | _ => {| response := Success "{...}"; latency := 2 |}
  end.

End ClientExamples.

(** Witness for C6: a 7 second advertised delay under the default cap. *)
Lemma reason_honours_retry_after_witness :
  Client.outcome_judgment
    (Client.reason (fun _ _ => "prompt")
       (fun _ => Some ClientExamples.sample_judgment) (fun _ => None)
       (fun _ => 0) ClientExamples.rate_limited_once
       Client.default_client_config
       (Insight.unknown_snapshot [] ClientExamples.sample_trigger)
       Insight.neutral_insights) = ClientExamples.sample_judgment /\
  Client.outcome_waits
    (Client.reason (fun _ _ => "prompt")
       (fun _ => Some ClientExamples.sample_judgment) (fun _ => None)
       (fun _ => 0) ClientExamples.rate_limited_once
       Client.default_client_config
       (Insight.unknown_snapshot [] ClientExamples.sample_trigger)
       Insight.neutral_insights) = [7].
Proof.
  destruct (reason_honours_retry_after (fun _ _ => "prompt")
              (fun _ => Some ClientExamples.sample_judgment) (fun _ => None)
              (fun _ => 0) ClientExamples.rate_limited_once
              Client.default_client_config
              (Insight.unknown_snapshot [] ClientExamples.sample_trigger)
              Insight.neutral_insights 7 1 2 "{...}"
              ClientExamples.sample_judgment)
    as [Hj [Hw _]].
  - simpl. lia.
  - reflexivity.
  - reflexivity.
  - reflexivity.
  - split; [exact Hj | rewrite Hw; reflexivity].
Defined.

(** ** Intervention Planner *)
Module PlannerFacts.
Import Judgment Planner.

(** The ranking order: higher score first, then earlier position. *)
Definition ranked_before (a b : candidate) : Prop :=
  score b < score a \/ (score a = score b /\ origin a < origin b).

Lemma ranked_before_trans : forall a b c,
  ranked_before a b -> ranked_before b c -> ranked_before a c.
Proof. unfold ranked_before. intros a b c H1 H2. lia. Qed.

Lemma insert_desc_perm : forall x l, Permutation (insert_desc x l) (x :: l).
Proof.
  intros x l. induction l as [|y l IH]; simpl; [reflexivity|].
  destruct (Nat.ltb (score x) (score y)); [|reflexivity].
  rewrite IH. apply perm_swap.
Qed.

Lemma sort_desc_perm : forall l, Permutation (sort_desc l) l.
Proof.
  induction l as [|x l IH]; simpl; [reflexivity|].
  rewrite insert_desc_perm. now apply perm_skip.
Qed.

Lemma insert_desc_sorted : forall x l,
  Sorted ranked_before l ->
  Forall (fun y => origin x < origin y) l ->
  Sorted ranked_before (insert_desc x l).
Proof.
  intros x l. induction l as [|y l IH]; intros Hs Hf; simpl.
  - repeat constructor.
  - inversion Hs as [|? ? Hs' Hhd]; subst.
    inversion Hf as [|? ? Hxy Hf']; subst.
    destruct (Nat.ltb (score x) (score y)) eqn:E.
    + apply Nat.ltb_lt in E.
      constructor; [now apply IH|].
      destruct l as [|z l]; simpl.
      * constructor. unfold ranked_before. lia.
      * destruct (Nat.ltb (score x) (score z)); constructor.
        -- now inversion Hhd.
        -- unfold ranked_before. lia.
    + apply Nat.ltb_ge in E.
      constructor; [assumption|].
      constructor. unfold ranked_before. lia.
Qed.

Lemma sort_desc_sorted : forall l,
  StronglySorted (fun a b => origin a < origin b) l ->
  Sorted ranked_before (sort_desc l).
Proof.
  induction l as [|x l IH]; intros Hss; simpl; [constructor|].
  inversion Hss as [|? ? Hss' Hf]; subst.
  apply insert_desc_sorted; [now apply IH|].
  apply Forall_forall. intros y Hy.
  apply (Permutation_in _ (sort_desc_perm l)) in Hy.
  exact (proj1 (Forall_forall _ _) Hf y Hy).
Qed.

Lemma in_firstn {A} : forall n (l : list A) x, In x (firstn n l) -> In x l.
Proof.
  intros n l x H. rewrite <- (firstn_skipn n l). apply in_or_app. now left.
Qed.

Lemma strongly_sorted_filter {A} (R : A -> A -> Prop) (f : A -> bool) :
  forall l, StronglySorted R l -> StronglySorted R (filter f l).
Proof.
  induction l as [|x l IH]; intros H; simpl; [constructor|].
  inversion H as [|? ? H' Hf]; subst.
  destruct (f x); [|now apply IH].
  constructor; [now apply IH|].
  apply Forall_forall. intros y Hy. apply filter_In in Hy.
  exact (proj1 (Forall_forall _ _) Hf y (proj1 Hy)).
Qed.

Lemma strongly_sorted_firstn {A} (R : A -> A -> Prop) :
  forall n l, StronglySorted R l -> StronglySorted R (firstn n l).
Proof.
  induction n as [|n IH]; intros l H; [constructor|].
  destruct l as [|x l]; simpl; [constructor|].
  inversion H as [|? ? H' Hf]; subst.
  constructor; [now apply IH|].
  apply Forall_forall. intros y Hy. apply in_firstn in Hy.
  exact (proj1 (Forall_forall _ _) Hf y Hy).
Qed.

Lemma permutation_filter {A} (f : A -> bool) :
  forall l l', Permutation l l' -> Permutation (filter f l) (filter f l').
Proof.
  intros l l' H. induction H; simpl.
  - constructor.
  - destruct (f x); [now constructor | assumption].
  - destruct (f x), (f y); try constructor; reflexivity.
  - etransitivity; eassumption.
Qed.

Lemma filter_all {A} (f : A -> bool) :
  forall l, Forall (fun x => f x = true) l -> filter f l = l.
Proof.
  induction l as [|x l IH]; intros H; simpl; [reflexivity|].
  inversion H; subst. rewrite H2. f_equal. now apply IH.
Qed.

Lemma filter_none {A} (f : A -> bool) :
  forall l, Forall (fun x => f x = false) l -> filter f l = [].
Proof.
  induction l as [|x l IH]; intros H; simpl; [reflexivity|].
  inversion H; subst. rewrite H2. now apply IH.
Qed.

(** [enumerate] from any start: the positions, then the elements. *)
Lemma combine_seq_fst {A} : forall (l : list A) start,
  map fst (combine (seq start (List.length l)) l) = seq start (List.length l).
Proof.
  induction l as [|x l IH]; intros start; simpl; [reflexivity|].
  now rewrite IH.
Qed.

Lemma combine_seq_snd {A} : forall (l : list A) start,
  map snd (combine (seq start (List.length l)) l) = l.
Proof.
  induction l as [|x l IH]; intros start; simpl; [reflexivity|].
  now rewrite IH.
Qed.

Lemma combine_seq_sorted {A} : forall (l : list A) start,
  StronglySorted (fun a b => fst a < fst b)
    (combine (seq start (List.length l)) l).
Proof.
  induction l as [|x l IH]; intros start; simpl; [constructor|].
  constructor; [apply IH|].
  apply Forall_forall. intros [n y] Hp. apply in_combine_l in Hp.
  apply in_seq in Hp. simpl. lia.
Qed.

Lemma strongly_sorted_map {A B} (R : B -> B -> Prop) (f : A -> B) :
  forall l, StronglySorted (fun a b => R (f a) (f b)) l ->
  StronglySorted R (map f l).
Proof.
  induction l as [|x l IH]; intros H; simpl; [constructor|].
  inversion H as [|? ? H' Hf]; subst.
  constructor; [now apply IH|].
  apply Forall_forall. intros y Hy. apply in_map_iff in Hy.
  destruct Hy as [z [<- Hz]].
  exact (proj1 (Forall_forall _ _) Hf z Hz).
Qed.

Lemma candidates_origin_sorted : forall cfg j,
  StronglySorted (fun a b => origin a < origin b) (candidates cfg j).
Proof.
  intros cfg j. unfold candidates, enumerate.
  apply strongly_sorted_map. simpl.
  apply combine_seq_sorted.
Qed.

Lemma candidates_confidence : forall cfg j,
  Forall (fun c => cand_confidence c = reasoning_confidence j)
    (candidates cfg j).
Proof.
  intros cfg j. apply Forall_forall. intros c Hc.
  unfold candidates in Hc. apply in_map_iff in Hc.
  destruct Hc as [p [<- _]]. reflexivity.
Qed.

Lemma to_interventions_confidence : forall s l i,
  In i (to_interventions s l) ->
  exists c, In c l /\ confidence i = cand_confidence c.
Proof.
  intros s l i Hi. unfold to_interventions, enumerate in Hi.
  apply in_map_iff in Hi. destruct Hi as [p [<- Hp]].
  exists (snd p). split.
  - destruct p. simpl. now apply in_combine_r in Hp.
  - unfold to_intervention. destruct (cand_source (snd p)); reflexivity.
Qed.

Lemma to_interventions_length : forall s l,
  List.length (to_interventions s l) = List.length l.
Proof.
  intros s l. unfold to_interventions, enumerate.
  rewrite length_map, length_combine, length_seq. lia.
Qed.

Lemma selected_above : forall cfg j c,
  In c (selected cfg j) -> min_confidence_threshold cfg <= cand_confidence c.
Proof.
  intros cfg j c Hc. unfold selected in Hc.
  apply in_firstn in Hc. apply filter_In in Hc.
  apply Nat.leb_le. exact (proj2 Hc).
Qed.

(** The three outcomes of the planner. *)
Lemma plan_interventions_cases : forall cfg j s p,
  plan_interventions cfg j s = Ok p ->
  (reasoning_confidence j = 0 /\ planned_interventions p = [] /\
   why_these_interventions p = unavailable_rationale /\ plan_confidence p = 0)
  \/ (reasoning_confidence j <> 0 /\
      min_confidence_threshold cfg <= 100 /\
      planned_interventions p = to_interventions s (selected cfg j) /\
      plan_confidence p = reasoning_confidence j).
Proof.
  intros cfg j s p H. unfold plan_interventions in H.
  destruct (Nat.eqb (reasoning_confidence j) 0) eqn:E0.
  - injection H as <-. left. apply Nat.eqb_eq in E0. auto.
  - destruct (Nat.ltb 100 (min_confidence_threshold cfg)) eqn:E1;
      [discriminate|].
    injection H as <-. right. apply Nat.eqb_neq in E0.
    apply Nat.ltb_ge in E1. simpl. auto.
Qed.

End PlannerFacts.

(** C4. Every intervention of a plan the planner returns has a confidence
    at least the configured minimum threshold, and a plan has at most the
    configured maximum number of interventions; in particular, with a
    maximum of 2 and exactly 3 candidates strictly above the threshold,
    the plan has exactly 2 interventions. *)
Theorem plan_respects_floor_and_cap :
  forall cfg j s p,
  Planner.plan_interventions cfg j s = Exc.Ok p ->
  Forall (fun i => Planner.min_confidence_threshold cfg <= Planner.confidence i)
    (Planner.planned_interventions p) /\
  List.length (Planner.planned_interventions p)
    <= Planner.max_suggestions_per_cycle cfg /\
  (Planner.max_suggestions_per_cycle cfg = 2 ->
   List.length
     (filter (fun c => Nat.ltb (Planner.min_confidence_threshold cfg)
                                (Planner.cand_confidence c))
        (Planner.candidates cfg j)) = 3 ->
   List.length (Planner.planned_interventions p) = 2).
Proof.
  intros cfg j s p H.
  pose proof (PlannerFacts.candidates_confidence cfg j) as Hconf.
  destruct (PlannerFacts.plan_interventions_cases cfg j s p H)
    as [[Hz [Hnil _]] | [Hnz [_ [Hivs _]]]].
  - rewrite Hnil. repeat split; [constructor | simpl; lia |].
    intros _ H3.
    rewrite (PlannerFacts.filter_none _ (Planner.candidates cfg j)) in H3;
      [discriminate|].
    eapply Forall_impl; [|exact Hconf]. simpl. intros c ->.
    rewrite Hz. apply Nat.ltb_ge. lia.
  - rewrite Hivs. repeat split.
    + apply Forall_forall. intros i Hi.
      apply PlannerFacts.to_interventions_confidence in Hi.
      destruct Hi as [c [Hc ->]].
      now apply PlannerFacts.selected_above with j.
    + rewrite PlannerFacts.to_interventions_length.
      unfold Planner.selected. rewrite length_firstn. lia.
    + intros Hmax H3.
      rewrite PlannerFacts.to_interventions_length.
      unfold Planner.selected. rewrite length_firstn, Hmax.
      rewrite (Permutation_length
                 (PlannerFacts.permutation_filter _ _ _
                    (PlannerFacts.sort_desc_perm (Planner.candidates cfg j)))).
      destruct (Nat.ltb (Planner.min_confidence_threshold cfg)
                  (Judgment.reasoning_confidence j)) eqn:Elt.
      * apply Nat.ltb_lt in Elt.
        rewrite (PlannerFacts.filter_all _ (Planner.candidates cfg j)) in H3.
        2:{ eapply Forall_impl; [|exact Hconf]. simpl. intros c ->.
            now apply Nat.ltb_lt. }
        rewrite (PlannerFacts.filter_all _ (Planner.candidates cfg j)).
        -- rewrite H3. reflexivity.
        -- eapply Forall_impl; [|exact Hconf]. simpl. intros c ->.
           apply Nat.leb_le. lia.
      * rewrite (PlannerFacts.filter_none _ (Planner.candidates cfg j)) in H3;
          [discriminate|].
        eapply Forall_impl; [|exact Hconf]. simpl. intros c ->. exact Elt.
Qed.

Module PlannerExamples.
Import Judgment Planner.

Definition opp (d : string) (i : impact) : opportunity :=
  {| opportunity_description := d; opportunity_impact := i;
     opportunity_location := None |}.

(** A judgment at confidence 0.8 with three opportunities. *)
Definition three_opportunities : judgment :=
  {| momentum_assessment := neutral_assessment;
     character_arc_assessment := neutral_assessment;
     emotional_trajectory := neutral_assessment;
     structural_concerns := [];
     thematic_health := neutral_assessment;
     opportunities := [opp "deepen the rivalry" ImpHigh;
                       opp "echo the opening image" ImpLow;
                       opp "foreshadow the storm" ImpMedium];
     questions_for_writer := [];
     overall_story_health := "good";
     reasoning_confidence := 80 |}.

Definition cap_two : planner_config :=
  {| min_confidence_threshold := 60; max_suggestions_per_cycle := 2;
     concern_weight := 1; opportunity_weight := 1 |}.

Definition sample_snapshot : snapshot :=
  Insight.unknown_snapshot []
    {| event_name := "new_scene_added"; story_id := "s1"; timestamp := 0 |}.

End PlannerExamples.

(** Witness for C4: three opportunities above 0.6, at most 2 suggestions. *)
Lemma plan_respects_floor_and_cap_witness :
  exists p,
    Planner.plan_interventions PlannerExamples.cap_two
      PlannerExamples.three_opportunities PlannerExamples.sample_snapshot
      = Exc.Ok p /\
    List.length (Planner.planned_interventions p) = 2.
Proof.
  eexists. split; [reflexivity|].
  apply (plan_respects_floor_and_cap PlannerExamples.cap_two
           PlannerExamples.three_opportunities PlannerExamples.sample_snapshot);
    reflexivity.
Defined.

(** C5. The planner derives exactly one candidate from each structural
    concern and each opportunity, concerns first, numbered by position; a
    candidate's score is its severity or impact rank times the configured
    weight; the ranking is a stable sort by descending score: a permutation
    of the candidates ordered by score, ties by original position (so a
    concern before an opportunity of equal score); the selected candidates
    keep that order and the returned interventions are exactly them, in
    order (or none, in the fallback case). *)
Theorem planner_stable_ranking :
  forall cfg j s p,
  Planner.plan_interventions cfg j s = Exc.Ok p ->
  map Planner.cand_source (Planner.candidates cfg j)
    = (map Planner.FromConcern (Judgment.structural_concerns j) ++
       map Planner.FromOpportunity (Judgment.opportunities j))%list /\
  map Planner.origin (Planner.candidates cfg j)
    = seq 0 (List.length (Judgment.structural_concerns j) +
             List.length (Judgment.opportunities j)) /\
  Forall (fun c => Planner.score c = Planner.source_score cfg (Planner.cand_source c))
    (Planner.candidates cfg j) /\
  Permutation (Planner.sort_desc (Planner.candidates cfg j))
    (Planner.candidates cfg j) /\
  Sorted PlannerFacts.ranked_before (Planner.sort_desc (Planner.candidates cfg j)) /\
  Sorted PlannerFacts.ranked_before (Planner.selected cfg j) /\
  (Planner.planned_interventions p
     = Planner.to_interventions s (Planner.selected cfg j) \/
   (Judgment.reasoning_confidence j = 0 /\ Planner.planned_interventions p = [])).
Proof.
  intros cfg j s p H.
  assert (Hsorted : Sorted PlannerFacts.ranked_before
                      (Planner.sort_desc (Planner.candidates cfg j))).
  { apply PlannerFacts.sort_desc_sorted.
    apply PlannerFacts.candidates_origin_sorted. }
  repeat split.
  - unfold Planner.candidates, Planner.enumerate. rewrite map_map.
    rewrite (map_ext _ snd) by reflexivity.
    apply PlannerFacts.combine_seq_snd.
  - unfold Planner.candidates, Planner.enumerate. rewrite map_map.
    rewrite (map_ext _ fst) by reflexivity.
    rewrite PlannerFacts.combine_seq_fst. unfold Planner.sources.
    rewrite length_app, !length_map. reflexivity.
  - apply Forall_forall. intros c Hc. unfold Planner.candidates in Hc.
    apply in_map_iff in Hc. destruct Hc as [q [<- _]]. reflexivity.
  - apply PlannerFacts.sort_desc_perm.
  - exact Hsorted.
  - unfold Planner.selected.
    apply StronglySorted_Sorted.
    apply PlannerFacts.strongly_sorted_firstn.
    apply PlannerFacts.strongly_sorted_filter.
    apply Sorted_StronglySorted; [|exact Hsorted].
    intros a b c. apply PlannerFacts.ranked_before_trans.
  - destruct (PlannerFacts.plan_interventions_cases cfg j s p H)
      as [[Hz [Hnil _]] | [_ [_ [Hivs _]]]]; [right; auto | left; auto].
Qed.

(** Witness for C5: the three-opportunity judgment under a cap of 2. *)
Lemma planner_stable_ranking_witness :
  exists p,
    Planner.plan_interventions PlannerExamples.cap_two
      PlannerExamples.three_opportunities PlannerExamples.sample_snapshot
      = Exc.Ok p /\
    Sorted PlannerFacts.ranked_before
      (Planner.selected PlannerExamples.cap_two
         PlannerExamples.three_opportunities) /\
    map Planner.what (Planner.planned_interventions p)
      = ["deepen the rivalry"; "foreshadow the storm"].
Proof.
  eexists. split; [reflexivity|]. split; [|reflexivity].
  destruct (planner_stable_ranking PlannerExamples.cap_two
              PlannerExamples.three_opportunities PlannerExamples.sample_snapshot
              _ eq_refl) as [_ [_ [_ [_ [_ [Hs _]]]]]].
  exact Hs.
Defined.

(** ** Cycle Orchestrator *)

(** C2. Whenever the Reasoning Client yields a judgment of confidence 0
    (the fallback) or overruns the wall-clock budget, the cycle completes,
    never in [FAILED]: it returns a well-formed plan for the story and
    event of the trigger, with no intervention, the "reasoning unavailable"
    rationale and confidence 0, within the budget. *)
Theorem cycle_plan_when_reasoning_unavailable :
  forall classify_pacing estimate_arc theme_score build_prompt
         strict_parse lenient_parse jitter provider
         cfg language kg continuity prefs scenes t s,
  Context.aggregate (Orchestrator.aggregator_cfg cfg)
    language kg continuity prefs scenes t = Exc.Ok s ->
  let o := Orchestrator.reasoning_outcome classify_pacing estimate_arc
             theme_score build_prompt strict_parse lenient_parse jitter
             provider cfg s in
  Judgment.reasoning_confidence (Client.outcome_judgment o) = 0 \/
  Orchestrator.wall_clock_budget cfg < Client.outcome_elapsed o ->
  exists p elapsed,
    Orchestrator.run_cycle classify_pacing estimate_arc theme_score
      build_prompt strict_parse lenient_parse jitter provider
      cfg language kg continuity prefs scenes t
      = Orchestrator.Complete p elapsed /\
    Planner.planned_interventions p = [] /\
    Planner.why_these_interventions p = Planner.unavailable_rationale /\
    Planner.plan_confidence p = 0 /\
    Planner.plan_story_id p = story_id t /\
    Planner.plan_trigger_event p = event_name t /\
    elapsed <= Orchestrator.wall_clock_budget cfg /\
    Orchestrator.plan_well_formed p.
Proof.
  intros cp ea ts bp sp lp jit prov cfg language kg continuity prefs scenes t s
    Hagg o Hunavail.
  assert (Hs : snap_story_id s = story_id t /\ snap_trigger s = t).
  { rewrite ContextFacts.aggregate_eq in Hagg. injection Hagg as <-. auto. }
  destruct Hs as [Hsid Htrig].
  unfold Orchestrator.run_cycle. rewrite Hagg.
  unfold Orchestrator.reason_within_budget. fold o.
  destruct (Nat.ltb (Orchestrator.wall_clock_budget cfg)
              (Client.outcome_elapsed o)) eqn:Eb.
  - unfold Planner.plan_interventions. simpl.
    do 2 eexists. split; [reflexivity|]. simpl.
    rewrite Hsid, Htrig. repeat split; simpl; auto; lia.
  - apply Nat.ltb_ge in Eb.
    destruct Hunavail as [Hz | Hlt]; [|lia].
    unfold Planner.plan_interventions. rewrite Hz. simpl.
    do 2 eexists. split; [reflexivity|]. simpl.
    rewrite Hsid, Htrig. repeat split; simpl; auto; lia.
Qed.

Module CycleExamples.
Import Judgment Client Orchestrator.

Definition sample_cycle_config : cycle_config :=
  {| aggregator_cfg := {| max_recent_scenes := 3 |};
     client_cfg := default_client_config;
     planner_cfg := Planner.default_planner_config;
     wall_clock_budget := 30 |}.

(** A provider that times out after 20 seconds on every call. *)
Definition always_times_out (_ : string) (_ : nat) : call :=
  {| response := Transient; latency := 20 |}.

Definition sample_trigger : trigger :=
  {| event_name := "new_scene_added"; story_id := "s1"; timestamp := 0 |}.

End CycleExamples.

(** Witness for C2: a client stub that always times out. *)
Lemma cycle_plan_when_reasoning_unavailable_witness :
  exists p elapsed,
    Orchestrator.run_cycle (fun _ => Insight.Steady) (fun r _ => r)
      (fun _ _ => 0) (fun _ _ => "prompt") (fun _ => None) (fun _ => None)
      (fun _ => 0) CycleExamples.always_times_out
      CycleExamples.sample_cycle_config None None None None ["scene 1"]
      CycleExamples.sample_trigger
      = Orchestrator.Complete p elapsed /\
    Planner.planned_interventions p = [] /\ Planner.plan_confidence p = 0.
Proof.
  edestruct (cycle_plan_when_reasoning_unavailable (fun _ => Insight.Steady)
               (fun r _ => r) (fun _ _ => 0) (fun _ _ => "prompt")
               (fun _ => None) (fun _ => None) (fun _ => 0)
               CycleExamples.always_times_out
               CycleExamples.sample_cycle_config None None None None
               ["scene 1"] CycleExamples.sample_trigger)
    as (p & e & Hrun & Hnil & _ & Hconf & _).
  - reflexivity.
  - right. apply Nat.ltb_lt. vm_compute. reflexivity.
  - exists p, e. auto.
Defined.

(** ** External representation of a plan *)
Module SerialFacts.
Import Planner Serial.

Lemma parse_serialize_intervention : forall i,
  parse_intervention (serialize_intervention i) = Some i.
Proof.
  intros [pr w y loc c]. destruct loc; reflexivity.
Qed.

Lemma parse_serialize_interventions : forall l,
  map_opt parse_intervention (map serialize_intervention l) = Some l.
Proof.
  induction l as [|i l IH]; [reflexivity|].
  simpl. rewrite parse_serialize_intervention, IH. reflexivity.
Qed.

End SerialFacts.

(** C8. Parsing the serialized form of any plan gives the plan back, field
    for field; the serialized plan and each serialized intervention carry
    the same field names in the same order whatever the plan, and the
    optional target location is [null] when absent and a number when
    present. *)
Theorem plan_serialization_roundtrip :
  forall p,
  Serial.parse_plan (Serial.serialize_plan p) = Some p /\
  Serial.keys (Serial.serialize_plan p) = Serial.plan_fields /\
  Forall (fun i =>
      Serial.keys (Serial.serialize_intervention i) = Serial.intervention_fields /\
      get "target_location" (Serial.serialize_intervention i)
        = Some (match Planner.target_location i with
                | Some l => JNum l
                | None => JNull
                end))
    (Planner.planned_interventions p).
Proof.
  intros [sid ev ivs why h c]. repeat split.
  - unfold Serial.parse_plan, Serial.field_of. simpl.
    rewrite SerialFacts.parse_serialize_interventions. reflexivity.
  - apply Forall_forall. intros i _. split; reflexivity.
Qed.

(** ** Creative-assistant page *)
Module PageFacts.
Import Page.

Lemma in_combine_seq_nth {A} : forall (l : list A) start n x,
  In (n, x) (combine (seq start (List.length l)) l) ->
  start <= n /\ nth_error l (n - start) = Some x.
Proof.
  induction l as [|y l IH]; intros start n x H; simpl in H; [contradiction|].
  destruct H as [H | H].
  - injection H as <- <-. rewrite Nat.sub_diag. auto.
  - apply IH in H. destruct H as [Hle Hn]. split; [lia|].
    replace (n - start) with (S (n - S start)) by lia. exact Hn.
Qed.

Lemma nth_error_firstn_some {A} : forall k (l : list A) n x,
  nth_error (firstn k l) n = Some x -> nth_error l n = Some x.
Proof.
  induction k as [|k IH]; intros l n x H.
  - destruct n; discriminate.
  - destruct l as [|y l]; [destruct n; discriminate|].
    destruct n as [|n]; simpl in *; [exact H | now apply IH].
Qed.

End PageFacts.

(** C9. For a quick-analyze response, the insight panel renders the cards
    of the first three interventions of the response, keyed 0, 1, 2, and
    nothing else: at most three cards, every card the [what] of the
    intervention at its index below 3, so interventions past index 2 are
    never shown, although the documented per-cycle maximum is 5. *)
Theorem insight_panel_shows_first_three :
  forall panel_open d,
  Page.insight_cards panel_open (Some d)
    = (if panel_open
       then Page.map_idx (fun idx item => (idx, Page.item_what item))
              (firstn 3 (Page.interventions d))
       else []) /\
  List.length (Page.insight_cards panel_open (Some d)) <= 3 /\
  (forall idx w, In (idx, w) (Page.insight_cards panel_open (Some d)) ->
     idx < 3 /\
     exists item, nth_error (Page.interventions d) idx = Some item /\
                  Page.item_what item = w) /\
  3 < Planner.max_suggestions_per_cycle Planner.default_planner_config.
Proof.
  intros panel_open d.
  assert (Heq : Page.insight_cards panel_open (Some d)
    = (if panel_open
       then Page.map_idx (fun idx item => (idx, Page.item_what item))
              (firstn 3 (Page.interventions d))
       else [])) by reflexivity.
  assert (Hin_card : forall idx w,
            In (idx, w) (Page.insight_cards panel_open (Some d)) ->
            idx < 3 /\
            exists item, nth_error (Page.interventions d) idx = Some item /\
                         Page.item_what item = w).
  { rewrite Heq. destruct panel_open; [|contradiction]. unfold Page.map_idx.
    intros idx w Hin. apply in_map_iff in Hin.
    destruct Hin as [[n item] [Hp Hin]]. simpl in Hp. injection Hp as <- <-.
    pose proof Hin as Hin'.
    apply in_combine_l, in_seq in Hin'. rewrite length_firstn in Hin'.
    apply PageFacts.in_combine_seq_nth in Hin.
    rewrite Nat.sub_0_r in Hin. destruct Hin as [_ Hn].
    split; [lia|]. exists item. split; [|reflexivity].
    now apply PageFacts.nth_error_firstn_some with 3. }
  split; [exact Heq|]. split; [|split; [exact Hin_card | cbv; lia]].
  rewrite Heq. destruct panel_open; [|simpl; lia].
  unfold Page.map_idx.
  rewrite length_map, length_combine, length_seq, length_firstn. lia.
Qed.

(** C10. If [handleImproveFlow] passes its guard on a state [st0], and its
    request later succeeds with an improved text (whatever the state is
    when the request settles), the editor shows the improved text with the
    Keep/Undo controls and the content captured at the call stored; a
    following [handleUndoChanges] restores exactly the content of [st0],
    clears the stored original and hides the Keep/Undo controls. *)
Theorem improve_then_undo_restores :
  forall st0 captured st_pending st_settled improved,
  Page.improve_flow_start st0 = Some (captured, st_pending) ->
  let st1 := Page.improve_flow_finish captured (Page.ImproveOk improved)
               st_settled in
  let st2 := Page.handle_undo_changes st1 in
  Page.content st1 = improved /\
  Page.original_content st1 = Page.content st0 /\
  Page.show_keep_undo_controls st1 = true /\
  Page.content st2 = Page.content st0 /\
  Page.original_content st2 = "" /\
  Page.show_keep_undo_controls st2 = false.
Proof.
  intros st0 captured st_pending st_settled improved Hstart st1 st2.
  unfold Page.improve_flow_start in Hstart.
  destruct (Page.trim_is_empty (Page.content st0)); [discriminate|].
  injection Hstart as <- _.
  repeat split.
Qed.

Module PageExamples.
Import Page.

Definition draft : page_state :=
  {| content := "The night was dark and the wind howled.";
     original_content := ""; show_keep_undo_controls := false;
     improving := false |}.

End PageExamples.

(** Witness for C10: improving a one-sentence draft, then undoing. *)
Lemma improve_then_undo_restores_witness :
  Page.content
    (Page.handle_undo_changes
       (Page.improve_flow_finish "The night was dark and the wind howled."
          (Page.ImproveOk "Darkness fell; the wind howled.")
          PageExamples.draft))
  = "The night was dark and the wind howled.".
Proof.
  destruct (improve_then_undo_restores PageExamples.draft
              "The night was dark and the wind howled."
              {| Page.content := "The night was dark and the wind howled.";
                 Page.original_content := "";
                 Page.show_keep_undo_controls := false;
                 Page.improving := true |}
              PageExamples.draft "Darkness fell; the wind howled.")
    as (_ & _ & _ & H & _).
  - reflexivity.
  - exact H.
Defined.

(** ** JavaScript strings, the editor's grammar fixes and its gutter *)
Module JsFacts.

Lemma units_append (s1 s2 : string) :
  Js.units (s1 ++ s2) = (Js.units s1 ++ Js.units s2)%list.
Proof. induction s1 as [|c s1 IH]; simpl; [reflexivity | now rewrite IH]. Qed.

Lemma units_of_units (l : list ascii) : Js.units (Js.of_units l) = l.
Proof. apply list_ascii_of_string_of_list_ascii. Qed.

Lemma units_inj (s1 s2 : string) : Js.units s1 = Js.units s2 -> s1 = s2.
Proof.
  intros H. rewrite <- (string_of_list_ascii_of_string s1),
    <- (string_of_list_ascii_of_string s2). unfold Js.units in H. now rewrite H.
Qed.

Lemma length_units (s : string) : String.length s = List.length (Js.units s).
Proof. induction s as [|c s IH]; simpl; [reflexivity | now rewrite IH]. Qed.

Lemma units_slice (s : string) (b e : nat) :
  Js.units (Js.str_slice s b e) = firstn (e - b) (skipn b (Js.units s)).
Proof. apply units_of_units. Qed.

Lemma units_slice_from (s : string) (b : nat) :
  Js.units (Js.str_slice_from s b) = skipn b (Js.units s).
Proof. apply units_of_units. Qed.

(** [String.concat ""] is the concatenation of the units. *)
Lemma units_concat_empty (l : list string) :
  Js.units (String.concat "" l) = List.concat (map Js.units l).
Proof.
  induction l as [|x [|y l] IH]; simpl.
  - reflexivity.
  - now rewrite app_nil_r.
  - simpl in IH. rewrite units_append. simpl. now rewrite IH.
Qed.

Lemma split_units_cons (sep : ascii) (cur l : list ascii) :
  exists x xs, Js.split_units sep cur l = x :: xs.
Proof.
  revert cur. induction l as [|c l IH]; intros cur; simpl.
  - eauto.
  - destruct (Ascii.eqb c sep); eauto.
Qed.

Lemma join_split_units (sep : ascii) (cur l : list ascii) :
  Js.units (Js.join_char sep (Js.split_units sep cur l)) = (rev cur ++ l)%list.
Proof.
  unfold Js.join_char. revert cur.
  induction l as [|c l IH]; intros cur; cbn [Js.split_units].
  - cbn [String.concat]. rewrite units_of_units. now rewrite app_nil_r.
  - destruct (Ascii.eqb c sep) eqn:E.
    + apply Ascii.eqb_eq in E. subst c.
      destruct (split_units_cons sep [] l) as (x & xs & Hx).
      specialize (IH []). rewrite Hx in IH |- *.
      change (String.concat (String sep "") (Js.of_units (rev cur) :: x :: xs))
        with (Js.of_units (rev cur) ++ String sep "" ++
              String.concat (String sep "") (x :: xs))%string.
      rewrite !units_append, IH, units_of_units. reflexivity.
    + rewrite IH. simpl. now rewrite <- app_assoc.
Qed.

Lemma length_split_units (sep : ascii) (cur l : list ascii) :
  List.length (Js.split_units sep cur l) = S (count_occ Ascii.ascii_dec l sep).
Proof.
  revert cur. induction l as [|c l IH]; intros cur; simpl; [reflexivity|].
  destruct (Ascii.eqb c sep) eqn:E.
  - apply Ascii.eqb_eq in E. subst c. destruct (Ascii.ascii_dec sep sep); [|congruence].
    simpl. now rewrite IH.
  - apply Ascii.eqb_neq in E. destruct (Ascii.ascii_dec c sep); [congruence|].
    apply IH.
Qed.

End JsFacts.

Module GrammarFacts.
Import Grammar.

Lemma in_bounds_units (content : string) (ms : list grammar_match)
    (m : grammar_match) (r : string) :
  Js.units (fst (apply_grammar_fix content ms m r)) =
  (firstn (offset m) (Js.units content) ++ Js.units r ++
   skipn (offset m + match_length m) (Js.units content))%list.
Proof.
  unfold apply_grammar_fix. simpl.
  rewrite !JsFacts.units_append, JsFacts.units_slice, JsFacts.units_slice_from.
  now rewrite Nat.sub_0_r.
Qed.

Lemma insert_by_offset_perm (x : grammar_match) (l : list grammar_match) :
  Permutation (x :: l) (insert_by_offset x l).
Proof.
  induction l as [|y l IH]; simpl; [reflexivity|].
  destruct (Nat.ltb (offset y) (offset x)); [|reflexivity].
  etransitivity; [apply perm_swap|]. now constructor.
Qed.

Lemma sort_by_offset_perm (l : list grammar_match) :
  Permutation l (sort_by_offset l).
Proof.
  induction l as [|x l IH]; simpl; [reflexivity|].
  etransitivity; [apply perm_skip, IH|]. apply insert_by_offset_perm.
Qed.





Lemma segments_from_length (text : string) (ms : list grammar_match) (li : nat) :
  li <= String.length text ->
  (forall m, In m ms -> offset m + match_length m <= String.length text) ->
  List.length (List.concat (map Js.units (map seg_text (segments_from text ms li)))) =
  String.length text - li + overlap li ms.
Proof.
  rewrite JsFacts.length_units.
  revert li. induction ms as [|m ms IH]; intros li Hli Hb; simpl.
  - destruct (Nat.ltb li (String.length text)) eqn:E; simpl.
    + rewrite app_nil_r, JsFacts.units_slice_from, length_skipn. lia.
    + apply Nat.ltb_ge in E. rewrite JsFacts.length_units in E. lia.
  - rewrite !map_app, concat_app, length_app. simpl.
    rewrite length_app, IH; [| apply Hb; now left | intros m' Hm'; apply Hb; now right].
    rewrite JsFacts.units_slice, length_firstn, length_skipn.
    pose proof (Hb m (or_introl eq_refl)) as Hm.
    destruct (Nat.ltb li (offset m)) eqn:E; simpl.
    + apply Nat.ltb_lt in E.
      rewrite app_nil_r, JsFacts.units_slice, length_firstn, length_skipn. lia.
    + apply Nat.ltb_ge in E. lia.
Qed.

Lemma sort_by_offset_in (ms : list grammar_match) (m : grammar_match) :
  In m (sort_by_offset ms) -> In m ms.
Proof.
  intros H. apply (Permutation_in _ (Permutation_sym (sort_by_offset_perm ms)) H).
Qed.

End GrammarFacts.

(** [handleApplyGrammarFix] splices the replacement into the content in
    place of the matched range: the new content is the units before the
    offset, the replacement, then the units after the range, so a range
    inside the content changes the length by the replacement's length less
    the range's. Every pending match at the same offset is dropped, and
    every other match is kept. *)
Theorem apply_grammar_fix_splices (content : string)
    (ms : list Grammar.grammar_match) (m : Grammar.grammar_match) (r : string) :
  Grammar.offset m + Grammar.match_length m <= String.length content ->
  Js.units (fst (Grammar.apply_grammar_fix content ms m r)) =
  (firstn (Grammar.offset m) (Js.units content) ++ Js.units r ++
   skipn (Grammar.offset m + Grammar.match_length m) (Js.units content))%list /\
  String.length (fst (Grammar.apply_grammar_fix content ms m r)) =
  String.length content - Grammar.match_length m + String.length r /\
  (forall x, In x (snd (Grammar.apply_grammar_fix content ms m r)) <->
             In x ms /\ Grammar.offset x <> Grammar.offset m).
Proof.
  intros Hb. split; [|split].
  - apply GrammarFacts.in_bounds_units.
  - rewrite !JsFacts.length_units, GrammarFacts.in_bounds_units.
    rewrite JsFacts.length_units in Hb.
    rewrite !length_app, length_firstn, length_skipn. lia.
  - intros x. unfold Grammar.apply_grammar_fix. simpl.
    rewrite filter_In, Bool.negb_true_iff, Nat.eqb_neq. reflexivity.
Qed.

Definition typo_match : Grammar.grammar_match :=
  {| Grammar.offset := 0; Grammar.match_length := 3;
     Grammar.msgId := "m1"; Grammar.rule_id := "TYPO";
     Grammar.message := "Possible typo"; Grammar.replacements := ["the"] |}.

Lemma apply_grammar_fix_splices_witness :
  Grammar.offset typo_match + Grammar.match_length typo_match
    <= String.length "teh cat" /\
  String.length (fst (Grammar.apply_grammar_fix "teh cat" [typo_match]
                        typo_match "then")) = 8.
Proof.
  assert (Hb : Grammar.offset typo_match + Grammar.match_length typo_match
                 <= String.length "teh cat") by (simpl; lia).
  split; [exact Hb|].
  destruct (apply_grammar_fix_splices "teh cat" [typo_match] typo_match "then" Hb)
    as (_ & Hlen & _).
  rewrite Hlen. reflexivity.
Defined.

(** Applying a fix whose replacement is the text the match covers leaves
    the content as it was, wherever the match points. *)
Theorem apply_grammar_fix_identity (content : string)
    (ms : list Grammar.grammar_match) (m : Grammar.grammar_match) :
  fst (Grammar.apply_grammar_fix content ms m
         (Js.str_slice content (Grammar.offset m)
            (Grammar.offset m + Grammar.match_length m))) = content.
Proof.
  apply JsFacts.units_inj. rewrite GrammarFacts.in_bounds_units, JsFacts.units_slice.
  replace (Grammar.offset m + Grammar.match_length m - Grammar.offset m)
    with (Grammar.match_length m) by lia.
  rewrite (Nat.add_comm (Grammar.offset m) (Grammar.match_length m)).
  rewrite <- skipn_skipn, firstn_skipn, firstn_skipn. reflexivity.
Qed.

(** A match whose offset lies at or past the end of the content (a stale
    match after the text got shorter) makes the fix append the replacement
    to the content. *)
Theorem apply_grammar_fix_stale_offset_appends (content : string)
    (ms : list Grammar.grammar_match) (m : Grammar.grammar_match) (r : string) :
  String.length content <= Grammar.offset m ->
  fst (Grammar.apply_grammar_fix content ms m r) = (content ++ r)%string.
Proof.
  intros Hb. apply JsFacts.units_inj.
  rewrite GrammarFacts.in_bounds_units, JsFacts.units_append.
  rewrite JsFacts.length_units in Hb.
  rewrite firstn_all2 by exact Hb. rewrite skipn_all2 by lia.
  now rewrite app_nil_r.
Qed.

Lemma apply_grammar_fix_stale_offset_appends_witness :
  String.length "the cat" <= 12 /\
  fst (Grammar.apply_grammar_fix "the cat" []
         {| Grammar.offset := 12; Grammar.match_length := 4;
            Grammar.msgId := "m2"; Grammar.rule_id := "COMMA";
            Grammar.message := "Add a comma"; Grammar.replacements := ["."] |} ".")
  = "the cat."%string.
Proof.
  split; [simpl; lia|].
  apply (apply_grammar_fix_stale_offset_appends "the cat" []
         {| Grammar.offset := 12; Grammar.match_length := 4;
            Grammar.msgId := "m2"; Grammar.rule_id := "COMMA";
            Grammar.message := "Add a comma"; Grammar.replacements := ["."] |} ".").
  simpl. lia.
Defined.



(** The gutter shows one line number more than the content has newline
    characters (so at least one, also for empty content), and joining the
    lines it splits the content into with newlines gives the content back. *)
Theorem line_gutter_counts_lines (content : string) :
  Gutter.line_count content =
  S (count_occ Ascii.ascii_dec (Js.units content) "010"%char) /\
  Js.join_char "010"%char (Js.split_char "010"%char content) = content.
Proof.
  split.
  - apply JsFacts.length_split_units.
  - apply JsFacts.units_inj. unfold Js.split_char.
    rewrite JsFacts.join_split_units. reflexivity.
Qed.

(** ** The autocomplete hook *)
Module AutocompleteFacts.
Import Autocomplete.

(** The effect clears the suggestion and schedules nothing. *)
Definition inactive (s : state) : bool :=
  negb (enabled s) || String.eqb (text s) "" || Nat.ltb (String.length (text s)) 5.

Lemma is_aborted_true (n : nat) (s : state) :
  is_aborted n s = true <-> In n (aborted s).
Proof.
  unfold is_aborted. rewrite existsb_exists. split.
  - intros (x & Hx & E). apply Nat.eqb_eq in E. now subst.
  - intros H. exists n. split; [exact H | apply Nat.eqb_refl].
Qed.

Lemma is_aborted_false (n : nat) (s : state) :
  is_aborted n s = false <-> ~ In n (aborted s).
Proof.
  rewrite <- is_aborted_true. destruct (is_aborted n s); split; congruence.
Qed.

Lemma in_without (n : nat) (p : nat * string) (l : list (nat * string)) :
  In p (without n l) <-> In p l /\ fst p <> n.
Proof.
  unfold without. rewrite filter_In, Bool.negb_true_iff, Nat.eqb_neq. reflexivity.
Qed.

Lemma find_id_in (n : nat) (t : string) (l : list (nat * string)) :
  find_id n l = Some t -> In (n, t) l.
Proof.
  unfold find_id. destruct (find (fun p => Nat.eqb (fst p) n) l) as [[m u]|] eqn:E;
    simpl; [|discriminate].
  intros [= <-]. pose proof (find_some _ _ E) as [Hin Hm].
  simpl in Hm. apply Nat.eqb_eq in Hm. now subst.
Qed.

Record inv (s : state) : Prop := {
  inv_live : forall n t, In (n, t) (timers s ++ in_flight s) ->
    is_aborted n s = false ->
    cleanup s = Some n /\ t = text s /\ inactive s = false;
  inv_inactive : inactive s = true -> suggestion s = "";
  inv_fresh_aborted : forall n, In n (aborted s) -> n < next_id s;
  inv_fresh_last : forall n, last_request s = Some n -> n < next_id s;
  inv_fresh_cleanup : forall n, cleanup s = Some n -> n < next_id s
}.

(** What the effect needs: every scheduled or running prediction is
    aborted, and the numbers in use are below [next_id]. *)
Record settled (s : state) : Prop := {
  st_dead : forall n t, In (n, t) (timers s ++ in_flight s) -> is_aborted n s = true;
  st_fresh_aborted : forall n, In n (aborted s) -> n < next_id s;
  st_fresh_last : forall n, last_request s = Some n -> n < next_id s;
  st_fresh_cleanup : forall n, cleanup s = Some n -> n < next_id s
}.

Lemma effect_inv (s : state) : settled s -> inv (effect s).
Proof.
  intros [Hd Ha Hl Hc]. unfold effect.
  destruct (negb (enabled s) || String.eqb (text s) "" ||
            Nat.ltb (String.length (text s)) 5) eqn:E.
  - constructor; simpl; auto.
    intros n t Hin Hab. unfold is_aborted in Hab. simpl in Hab.
    specialize (Hd n t Hin). unfold is_aborted in Hd. congruence.
  - set (s1 := match last_request s with Some m => abort m s | None => s end).
    assert (Ht : text s1 = text s /\ enabled s1 = enabled s /\
                 timers s1 = timers s /\ in_flight s1 = in_flight s /\
                 next_id s1 = next_id s)
      by (subst s1; destruct (last_request s); simpl; auto).
    destruct Ht as (Ht & He & Htm & Hfl & Hnx).
    assert (Hsub : forall x, In x (aborted s) -> In x (aborted s1))
      by (subst s1; destruct (last_request s); simpl; auto).
    assert (Hs1 : forall x, In x (aborted s1) -> x < next_id s).
    { subst s1. intros x. destruct (last_request s) as [m|] eqn:Em; simpl; [|apply Ha].
      intros [<-|Hx]; [now apply Hl | now apply Ha]. }
    constructor; cbn [text enabled timers in_flight next_id aborted suggestion
      cleanup last_request]; rewrite ?Ht, ?He, ?Htm, ?Hfl, ?Hnx.
    + intros n t Hin Hab. unfold is_aborted in Hab. simpl in Hab.
      destruct Hin as [[= <- <-]|Hin].
      * split; [reflexivity | split; [reflexivity | exact E]].
      * exfalso. rewrite <- Htm, <- Hfl in Hin.
        assert (In n (aborted s1)) as Hn.
        { rewrite Htm, Hfl in Hin. apply Hsub, is_aborted_true, (Hd n t Hin). }
        apply is_aborted_false in Hab. exact (Hab Hn).
    + intros _. reflexivity.
    + intros x Hx. apply Nat.lt_lt_succ_r, Hs1, Hx.
    + intros n [= <-]. lia.
    + intros n [= <-]. lia.
Qed.

Lemma set_suggestion_inv (v : string) (s : state) :
  inv s -> (inactive s = true -> v = "") -> inv (set_suggestion v s).
Proof. intros [Hl Hi Ha Hla Hc] Hv. constructor; simpl; auto. Qed.

Lemma run_cleanup_settled (s : state) (t : string) (e : bool) :
  inv s ->
  settled {| text := t; enabled := e; suggestion := suggestion (run_cleanup s);
             last_request := last_request (run_cleanup s);
             cleanup := cleanup (run_cleanup s);
             timers := timers (run_cleanup s); in_flight := in_flight (run_cleanup s);
             aborted := aborted (run_cleanup s); next_id := next_id (run_cleanup s) |}.
Proof.
  intros [Hl Hi Ha Hla Hc]. unfold run_cleanup.
  destruct (cleanup s) as [c|] eqn:Ec; constructor; simpl.
  - intros n u Hin. apply is_aborted_true. simpl.
    apply in_app_or in Hin. destruct Hin as [Hin|Hin].
    + apply in_without in Hin as [Hin Hne]. simpl in Hne.
      destruct (is_aborted n s) eqn:Ea.
      * right. now apply is_aborted_true.
      * destruct (Hl n u (in_or_app _ _ _ (or_introl Hin)) Ea) as [Hc' _].
        congruence.
    + destruct (is_aborted n s) eqn:Ea.
      * right. now apply is_aborted_true.
      * destruct (Hl n u (in_or_app _ _ _ (or_intror Hin)) Ea) as [Hc' _].
        left. congruence.
  - intros n [<-|Hn]; [now apply Hc | now apply Ha].
  - exact Hla.
  - discriminate.
  - intros n u Hin. destruct (is_aborted n s) eqn:Ea; [exact Ea|].
    destruct (Hl n u Hin Ea) as [Hc' _]. congruence.
  - exact Ha.
  - exact Hla.
  - rewrite Ec. discriminate.
Qed.

Lemma step_inv (s : state) (ev : event) : inv s -> inv (step s ev).
Proof.
  intros Hinv. destruct ev as [t e|n|n o| |]; simpl.
  - destruct (String.eqb t (text s) && Bool.eqb e (enabled s)); [exact Hinv|].
    apply effect_inv, run_cleanup_settled, Hinv.
  - destruct (find_id n (timers s)) as [t|] eqn:Ef; [|exact Hinv].
    apply find_id_in in Ef.
    destruct Hinv as [Hl Hi Ha Hla Hc]. constructor; simpl; auto.
    intros m u Hin Hab. apply Hl; [|exact Hab].
    apply in_app_or in Hin. apply in_or_app. destruct Hin as [Hin|[[= <- <-]|Hin]].
    + left. now apply in_without in Hin as [Hin _].
    + now left.
    + now right.
  - destruct (find_id n (in_flight s)) as [t|] eqn:Ef; [|exact Hinv].
    apply find_id_in in Ef.
    assert (Hs1 : inv {| text := text s; enabled := enabled s;
                         suggestion := suggestion s;
                         last_request := last_request s; cleanup := cleanup s;
                         timers := timers s; in_flight := without n (in_flight s);
                         aborted := aborted s; next_id := next_id s |}).
    { destruct Hinv as [Hl Hi Ha Hla Hc]. constructor; simpl; auto.
      intros m u Hin Hab. apply Hl; [|exact Hab].
      apply in_app_or in Hin. apply in_or_app. destruct Hin as [Hin|Hin]; [now left|].
      right. now apply in_without in Hin as [Hin _]. }
    destruct (is_aborted n s) eqn:Ea; [exact Hs1|].
    apply set_suggestion_inv; [exact Hs1|].
    destruct (inv_live s Hinv n t (in_or_app _ _ _ (or_intror Ef)) Ea) as (_ & _ & Hia).
    unfold inactive in *. simpl. rewrite Hia. discriminate.
  - unfold accept_suggestion. destruct (negb (String.eqb (suggestion s) "")); simpl;
      [apply set_suggestion_inv; auto | exact Hinv].
  - apply set_suggestion_inv; auto.
Qed.

Lemma run_inv (s : state) (evs : list event) : inv s -> inv (run s evs).
Proof.
  unfold run. revert s. induction evs as [|ev evs IH]; intros s Hs; simpl;
    [exact Hs | apply IH, step_inv, Hs].
Qed.

Lemma mount_inv (t : string) (e : bool) : inv (mount t e).
Proof.
  apply effect_inv. constructor; simpl; try tauto; discriminate.
Qed.

Lemma reachable_inv (s : state) : reachable s -> inv s.
Proof. intros (t & e & evs & ->). apply run_inv, mount_inv. Qed.

Lemma reachable_step (s : state) (ev : event) :
  reachable s -> reachable (step s ev).
Proof.
  intros (t & e & evs & ->). exists t, e, (evs ++ [ev])%list.
  unfold run. now rewrite fold_left_app.
Qed.

Lemma effect_keeps_aborted (s : state) (n : nat) :
  In n (aborted s) -> In n (aborted (effect s)).
Proof.
  unfold effect. destruct (_ || _ || _); simpl; [auto|].
  destruct (last_request s); simpl; auto.
Qed.

Lemma effect_in_flight (s : state) : in_flight (effect s) = in_flight s.
Proof.
  unfold effect. destruct (_ || _ || _); simpl; [reflexivity|].
  destruct (last_request s); reflexivity.
Qed.

Lemma effect_suggestion (s : state) : suggestion (effect s) = "".
Proof.
  unfold effect. destruct (_ || _ || _); reflexivity.
Qed.

Lemma append_eq_self (a b : string) : (a ++ b)%string = a -> b = "".
Proof.
  induction a as [|c a IH]; simpl; [auto|]. intros [= H]. now apply IH.
Qed.

End AutocompleteFacts.

(** ** The grammar-check hook *)
Module GrammarCheckFacts.
Import GrammarCheck.

Definition short (s : state) : bool :=
  String.eqb (text s) "" || Nat.ltb (String.length (text s)) 10.

Lemma gc_is_aborted_true (n : nat) (s : state) :
  is_aborted n s = true <-> In n (aborted s).
Proof.
  unfold is_aborted. rewrite existsb_exists. split.
  - intros (x & Hx & E). apply Nat.eqb_eq in E. now subst.
  - intros H. exists n. split; [exact H | apply Nat.eqb_refl].
Qed.

Lemma gc_is_aborted_false (n : nat) (s : state) :
  is_aborted n s = false <-> ~ In n (aborted s).
Proof.
  rewrite <- gc_is_aborted_true. destruct (is_aborted n s); split; congruence.
Qed.

(** Every scheduled or running check is aborted. *)
Definition dead (s : state) : Prop :=
  forall n t, In (n, t) (timers s ++ in_flight s) -> is_aborted n s = true.

Record inv (s : state) : Prop := {
  inv_live : forall n t, In (n, t) (timers s ++ in_flight s) ->
    is_aborted n s = false ->
    cleanup s = Some n /\ t = text s /\ short s = false;
  inv_busy : forall n t, In (n, t) (in_flight s) -> is_aborted n s = false ->
    isChecking s = true;
  inv_short : short s = true -> matches s = JArr [];
  inv_ref : forall n, cleanup s = Some n -> controller_ref s = Some n;
  inv_fresh_aborted : forall n, In n (aborted s) -> n < next_id s;
  inv_fresh_ref : forall n, controller_ref s = Some n -> n < next_id s;
  inv_fresh_cleanup : forall n, cleanup s = Some n -> n < next_id s
}.

Record settled (s : state) : Prop := {
  st_dead : dead s;
  st_cleanup : cleanup s = None;
  st_fresh_aborted : forall n, In n (aborted s) -> n < next_id s;
  st_fresh_ref : forall n, controller_ref s = Some n -> n < next_id s
}.

Lemma abort_ref_facts (s : state) :
  text (abort_ref s) = text s /\ matches (abort_ref s) = matches s /\
  isChecking (abort_ref s) = isChecking s /\
  controller_ref (abort_ref s) = controller_ref s /\
  cleanup (abort_ref s) = cleanup s /\ timers (abort_ref s) = timers s /\
  in_flight (abort_ref s) = in_flight s /\ next_id (abort_ref s) = next_id s /\
  (forall x, In x (aborted s) -> In x (aborted (abort_ref s))) /\
  (forall x, In x (aborted (abort_ref s)) ->
             In x (aborted s) \/ controller_ref s = Some x).
Proof.
  unfold abort_ref. destruct (controller_ref s) as [m|] eqn:Em; simpl;
    repeat split; auto.
  intros x [<-|Hx]; auto.
Qed.

Lemma gc_effect_inv (s : state) : settled s -> inv (effect s).
Proof.
  intros [Hd Hc Ha Hr]. unfold effect.
  destruct (String.eqb (text s) "" || Nat.ltb (String.length (text s)) 10) eqn:E.
  - constructor; simpl; auto; try (rewrite Hc; discriminate).
    + intros n t Hin Hab. unfold is_aborted in Hab. simpl in Hab.
      specialize (Hd n t Hin). unfold is_aborted in Hd. congruence.
    + intros n t Hin Hab. unfold is_aborted in Hab. simpl in Hab.
      specialize (Hd n t (in_or_app _ _ _ (or_intror Hin))).
      unfold is_aborted in Hd. congruence.
  - destruct (abort_ref_facts s) as (Ht & Hm & Hk & Href & Hcl & Htm & Hfl & Hnx & Hsub & Hab).
    constructor; cbn [text matches isChecking controller_ref cleanup timers in_flight
      aborted next_id]; rewrite ?Ht, ?Htm, ?Hfl, ?Hnx.
    + intros n t Hin Hn. unfold is_aborted in Hn. simpl in Hn.
      destruct Hin as [[= <- <-]|Hin].
      * split; [reflexivity | split; [reflexivity | exact E]].
      * exfalso. apply gc_is_aborted_false in Hn. apply Hn, Hsub, gc_is_aborted_true.
        exact (Hd n t Hin).
    + intros n t Hin Hn. exfalso. apply gc_is_aborted_false in Hn. apply Hn, Hsub.
      apply gc_is_aborted_true, (Hd n t), in_or_app. now right.
    + intros Hs. exfalso. unfold short in Hs. cbn [text] in Hs. rewrite E in Hs. discriminate.
    + intros n [= <-]. reflexivity.
    + intros x Hx. apply Hab in Hx as [Hx|Hx]; [apply Ha in Hx | apply Hr in Hx]; lia.
    + intros n [= <-]. lia.
    + intros n [= <-]. lia.
Qed.

Lemma gc_run_cleanup_settled (s : state) (t : string) :
  inv s -> settled (with_text t (run_cleanup s)).
Proof.
  intros [Hl Hb Hsh Href Ha Hr Hc]. unfold run_cleanup.
  destruct (cleanup s) as [c|] eqn:Ec.
  - pose proof (Href c eq_refl) as Hrc.
    unfold abort_ref. rewrite Hrc. constructor; simpl.
    + intros n u Hin. apply gc_is_aborted_true. simpl.
      apply in_app_or in Hin. destruct (is_aborted n s) eqn:Eab.
      * right. now apply gc_is_aborted_true.
      * left. destruct Hin as [Hin|Hin].
        -- apply AutocompleteFacts.in_without in Hin as [Hin _].
           destruct (Hl n u (in_or_app _ _ _ (or_introl Hin)) Eab) as [H _].
           congruence.
        -- destruct (Hl n u (in_or_app _ _ _ (or_intror Hin)) Eab) as [H _].
           congruence.
    + reflexivity.
    + intros n [<-|Hn]; [now apply Hr | now apply Ha].
    + intros n Hn. apply Hr. rewrite Hrc. exact Hn.
  - constructor; simpl; auto.
    intros n u Hin. destruct (is_aborted n s) eqn:Eab; [exact Eab|].
    destruct (Hl n u Hin Eab) as [H _]. congruence.
Qed.

Lemma set_matches_inv (m : json) (s : state) :
  inv s -> (short s = true -> m = JArr []) -> inv (set_matches m s).
Proof. intros [Hl Hb Hsh Href Ha Hr Hc] Hm. constructor; simpl; auto. Qed.

Lemma gc_step_inv (s : state) (ev : event) : inv s -> inv (step s ev).
Proof.
  intros Hinv. destruct ev as [t|n|n o]; simpl.
  - destruct (String.eqb t (text s)); [exact Hinv|].
    apply gc_effect_inv, gc_run_cleanup_settled, Hinv.
  - destruct (Autocomplete.find_id n (timers s)) as [t|] eqn:Ef; [|exact Hinv].
    apply AutocompleteFacts.find_id_in in Ef.
    destruct Hinv as [Hl Hb Hsh Href Ha Hr Hc]. constructor; simpl; auto.
    intros m u Hin Hab. apply Hl; [|exact Hab].
    apply in_app_or in Hin. apply in_or_app. destruct Hin as [Hin|[[= <- <-]|Hin]].
    + left. now apply AutocompleteFacts.in_without in Hin as [Hin _].
    + now left.
    + now right.
  - destruct (Autocomplete.find_id n (in_flight s)) as [t|] eqn:Ef; [|exact Hinv].
    apply AutocompleteFacts.find_id_in in Ef.
    destruct (is_aborted n s) eqn:Ea.
    + (* an aborted check: [null], nothing stored, the flag left alone *)
      simpl. unfold matches_of. simpl.
      destruct Hinv as [Hl Hb Hsh Href Ha Hr Hc]. constructor; simpl; auto.
      * intros m u Hin Hab. apply Hl; [|exact Hab].
        apply in_app_or in Hin. apply in_or_app. destruct Hin as [Hin|Hin]; [now left|].
        right. now apply AutocompleteFacts.in_without in Hin as [Hin _].
      * intros m u Hin Hab. apply (Hb m u); [|exact Hab].
        now apply AutocompleteFacts.in_without in Hin as [Hin _].
    + destruct (inv_live s Hinv n t (in_or_app _ _ _ (or_intror Ef)) Ea)
        as (Hcl & Ht & Hshort).
      assert (Hs1 : inv {| text := text s; matches := matches s;
                           isChecking := false;
                           controller_ref := controller_ref s; cleanup := cleanup s;
                           timers := timers s;
                           in_flight := Autocomplete.without n (in_flight s);
                           aborted := aborted s; next_id := next_id s |}).
      { destruct Hinv as [Hl Hb Hsh Href Ha Hr Hc]. constructor; simpl; auto.
        - intros m u Hin Hab. apply Hl; [|exact Hab].
          apply in_app_or in Hin. apply in_or_app. destruct Hin as [Hin|Hin];
            [now left|].
          right. now apply AutocompleteFacts.in_without in Hin as [Hin _].
        - intros m u Hin Hab. exfalso.
          apply AutocompleteFacts.in_without in Hin as [Hin Hne]. simpl in Hne.
          destruct (Hl m u (in_or_app _ _ _ (or_intror Hin)) Hab) as [Hm _].
          congruence. }
      destruct (matches_of (check_grammar false o)) as [m|]; simpl;
        [|exact Hs1].
      apply (set_matches_inv m) in Hs1; [exact Hs1|].
      unfold short in *. simpl. rewrite Hshort. discriminate.
Qed.

Lemma gc_run_inv (s : state) (evs : list event) : inv s -> inv (run s evs).
Proof.
  unfold run. revert s. induction evs as [|ev evs IH]; intros s Hs; simpl;
    [exact Hs | apply IH, gc_step_inv, Hs].
Qed.

Lemma gc_mount_inv (t : string) : inv (mount t).
Proof.
  apply gc_effect_inv. constructor; [intros n u [] | reflexivity | intros n [] | discriminate].
Qed.

Lemma gc_reachable_inv (s : state) : reachable s -> inv s.
Proof. intros (t & evs & ->). apply gc_run_inv, gc_mount_inv. Qed.

(** Events other than a new text keep every check aborted, leave
    [matches] alone and never clear [isChecking]. *)
Lemma dead_step (s : state) (ev : event) :
  dead s -> (forall t, ev <> SetText t) ->
  dead (step s ev) /\ matches (step s ev) = matches s /\
  (isChecking s = true -> isChecking (step s ev) = true).
Proof.
  intros Hd Hev. destruct ev as [t|n|n o]; [now destruct (Hev t)| |]; simpl.
  - destruct (Autocomplete.find_id n (timers s)) as [t|] eqn:Ef;
      [|repeat split; auto].
    apply AutocompleteFacts.find_id_in in Ef.
    pose proof (Hd n t (in_or_app _ _ _ (or_introl Ef))) as Hn.
    split; [|split; reflexivity].
    intros m u Hin. unfold is_aborted. simpl. apply in_app_or in Hin.
    destruct Hin as [Hin|[[= <- <-]|Hin]].
    + apply AutocompleteFacts.in_without in Hin as [Hin _].
      apply (Hd m u), in_or_app. now left.
    + exact Hn.
    + apply (Hd m u), in_or_app. now right.
  - destruct (Autocomplete.find_id n (in_flight s)) as [t|] eqn:Ef;
      [|repeat split; auto].
    apply AutocompleteFacts.find_id_in in Ef.
    pose proof (Hd n t (in_or_app _ _ _ (or_intror Ef))) as Hn.
    rewrite Hn. simpl. split; [|split; auto].
    intros m u Hin. unfold is_aborted. simpl. apply (Hd m u).
    apply in_app_or in Hin. apply in_or_app. destruct Hin as [Hin|Hin]; [now left|].
    right. now apply AutocompleteFacts.in_without in Hin as [Hin _].
Qed.

Lemma gc_reachable_step (s : state) (ev : event) :
  reachable s -> reachable (step s ev).
Proof.
  intros (t & evs & ->). exists t, (evs ++ [ev])%list.
  unfold run. now rewrite fold_left_app.
Qed.

Lemma dead_run (s : state) (evs : list event) :
  dead s -> isChecking s = true -> matches s = JArr [] ->
  (forall ev u, In ev evs -> ev <> SetText u) ->
  isChecking (run s evs) = true /\ matches (run s evs) = JArr [].
Proof.
  unfold run. revert s. induction evs as [|ev evs IH]; intros s Hd Hk Hm Hevs;
    simpl; [auto|].
  destruct (dead_step s ev Hd (fun u => Hevs ev u (or_introl eq_refl)))
    as (Hd' & Hm' & Hk').
  apply IH; [exact Hd' | now apply Hk' | now rewrite Hm' |].
  intros ev' u Hi. apply Hevs. now right.
Qed.

End GrammarCheckFacts.

(** A prediction that comes back changes the suggestion only when it was
    requested for the text as it is now, with autocomplete enabled and at
    least 5 characters typed: the prediction of an older text, or of one
    made while disabled, never shows. *)
Theorem autocomplete_response_for_current_text (s : Autocomplete.state)
    (n : nat) (o : Autocomplete.predict_outcome) :
  Autocomplete.reachable s ->
  Autocomplete.suggestion (Autocomplete.step s (Autocomplete.Respond n o)) =
    Autocomplete.suggestion s \/
  (In (n, Autocomplete.text s) (Autocomplete.in_flight s) /\
   Autocomplete.enabled s = true /\ 5 <= String.length (Autocomplete.text s)).
Proof.
  intros Hr. pose proof (AutocompleteFacts.reachable_inv s Hr) as Hinv.
  simpl. destruct (Autocomplete.find_id n (Autocomplete.in_flight s)) as [t|] eqn:Ef;
    [|now left].
  apply AutocompleteFacts.find_id_in in Ef.
  destruct (Autocomplete.is_aborted n s) eqn:Ea; [now left|].
  right. destruct (AutocompleteFacts.inv_live s Hinv n t
                     (in_or_app _ _ _ (or_intror Ef)) Ea) as (_ & Ht & Hia).
  subst t. unfold AutocompleteFacts.inactive in Hia.
  apply Bool.orb_false_iff in Hia as [Hia Hlt].
  apply Bool.orb_false_iff in Hia as [He _].
  apply Nat.ltb_ge in Hlt. apply Bool.negb_false_iff in He. auto.
Qed.

Lemma autocomplete_response_for_current_text_witness :
  Autocomplete.reachable
    (Autocomplete.run (Autocomplete.mount "Once upon" true)
       [Autocomplete.TimerFires 0; Autocomplete.SetProps "Once upon a" true]) /\
  Autocomplete.suggestion
    (Autocomplete.step
       (Autocomplete.run (Autocomplete.mount "Once upon" true)
          [Autocomplete.TimerFires 0; Autocomplete.SetProps "Once upon a" true])
       (Autocomplete.Respond 0 (Autocomplete.Predicted (Some " time")))) = "".
Proof.
  assert (Hr : Autocomplete.reachable
    (Autocomplete.run (Autocomplete.mount "Once upon" true)
       [Autocomplete.TimerFires 0; Autocomplete.SetProps "Once upon a" true]))
    by (exists "Once upon", true,
          [Autocomplete.TimerFires 0; Autocomplete.SetProps "Once upon a" true];
        reflexivity).
  split; [exact Hr|].
  destruct (autocomplete_response_for_current_text _ 0
              (Autocomplete.Predicted (Some " time")) Hr) as [H|[H _]].
  - rewrite H. reflexivity.
  - exfalso. simpl in H. intuition discriminate.
Defined.

(** Whenever autocomplete is disabled or the text is shorter than 5
    characters, the hook holds no suggestion, whatever predictions come
    back late. *)
Theorem autocomplete_inactive_no_suggestion (s : Autocomplete.state) :
  Autocomplete.reachable s ->
  Autocomplete.enabled s = false \/ String.length (Autocomplete.text s) < 5 ->
  Autocomplete.suggestion s = "".
Proof.
  intros Hr Hoff. apply (AutocompleteFacts.inv_inactive s
                           (AutocompleteFacts.reachable_inv s Hr)).
  unfold AutocompleteFacts.inactive. destruct Hoff as [He|Hl].
  - now rewrite He.
  - apply Nat.ltb_lt in Hl. rewrite Hl. apply Bool.orb_true_r.
Qed.

Lemma autocomplete_inactive_no_suggestion_witness :
  Autocomplete.reachable
    (Autocomplete.run (Autocomplete.mount "Once upon a time" true)
       [Autocomplete.TimerFires 0; Autocomplete.SetProps "Once upon a time" false;
        Autocomplete.Respond 0 (Autocomplete.Predicted (Some " there"))]) /\
  Autocomplete.suggestion
    (Autocomplete.run (Autocomplete.mount "Once upon a time" true)
       [Autocomplete.TimerFires 0; Autocomplete.SetProps "Once upon a time" false;
        Autocomplete.Respond 0 (Autocomplete.Predicted (Some " there"))]) = "".
Proof.
  assert (Hr : Autocomplete.reachable
    (Autocomplete.run (Autocomplete.mount "Once upon a time" true)
       [Autocomplete.TimerFires 0; Autocomplete.SetProps "Once upon a time" false;
        Autocomplete.Respond 0 (Autocomplete.Predicted (Some " there"))]))
    by (eexists _, _, _; reflexivity).
  split; [exact Hr|].
  apply (autocomplete_inactive_no_suggestion _ Hr). left. reflexivity.
Defined.

(** Tab with a suggestion showing prevents the default, appends the
    suggestion to the content and clears it; once the page renders the
    new content, the hook still holds no suggestion and every prediction
    that was in flight is aborted, so none of them can show. *)
Theorem tab_accepts_suggestion (content : string) (ac : Autocomplete.state) :
  Autocomplete.reachable ac ->
  Autocomplete.text ac = content ->
  Autocomplete.suggestion ac <> "" ->
  let '(prevented, content', ac1) := Editor.handle_key_down "Tab" content ac in
  let ac2 := Autocomplete.step ac1
               (Autocomplete.SetProps content' (Autocomplete.enabled ac1)) in
  prevented = true /\
  content' = (content ++ Autocomplete.suggestion ac)%string /\
  Autocomplete.suggestion ac2 = "" /\
  (forall n t, In (n, t) (Autocomplete.in_flight ac) ->
               Autocomplete.is_aborted n ac2 = true).
Proof.
  intros Hr Ht Hs. pose proof (AutocompleteFacts.reachable_inv ac Hr) as Hinv.
  unfold Editor.handle_key_down, Autocomplete.accept_suggestion. simpl.
  apply String.eqb_neq in Hs. rewrite Hs. simpl. rewrite Hs. simpl.
  apply String.eqb_neq in Hs.
  assert (Hne : String.eqb (content ++ Autocomplete.suggestion ac) content = false).
  { apply String.eqb_neq. intros H. apply Hs.
    now apply (AutocompleteFacts.append_eq_self content). }
  rewrite <- Ht in Hne |- *. rewrite Hne. simpl.
  split; [reflexivity | split; [reflexivity | split]].
  - apply AutocompleteFacts.effect_suggestion.
  - intros n t Hin. apply AutocompleteFacts.is_aborted_true,
      AutocompleteFacts.effect_keeps_aborted.
    pose proof (AutocompleteFacts.run_cleanup_settled
                  (Autocomplete.set_suggestion "" ac)
                  (Autocomplete.text ac ++ Autocomplete.suggestion ac)
                  (Autocomplete.enabled ac)
                  (AutocompleteFacts.set_suggestion_inv "" ac Hinv
                     (fun _ => eq_refl))) as Hst.
    apply AutocompleteFacts.is_aborted_true. apply (AutocompleteFacts.st_dead _ Hst n t).
    apply in_or_app. right.
    unfold Autocomplete.run_cleanup. simpl.
    destruct (Autocomplete.cleanup ac); exact Hin.
Qed.

Lemma tab_accepts_suggestion_witness :
  Autocomplete.reachable
    (Autocomplete.run (Autocomplete.mount "Once upon" true)
       [Autocomplete.TimerFires 0;
        Autocomplete.Respond 0 (Autocomplete.Predicted (Some " a time"))]) /\
  Autocomplete.text
    (Autocomplete.run (Autocomplete.mount "Once upon" true)
       [Autocomplete.TimerFires 0;
        Autocomplete.Respond 0 (Autocomplete.Predicted (Some " a time"))])
    = "Once upon" /\
  Autocomplete.suggestion
    (Autocomplete.run (Autocomplete.mount "Once upon" true)
       [Autocomplete.TimerFires 0;
        Autocomplete.Respond 0 (Autocomplete.Predicted (Some " a time"))]) <> "" /\
  (let '(_, content', _) := Editor.handle_key_down "Tab" "Once upon"
      (Autocomplete.run (Autocomplete.mount "Once upon" true)
         [Autocomplete.TimerFires 0;
          Autocomplete.Respond 0 (Autocomplete.Predicted (Some " a time"))]) in
   content' = "Once upon a time"%string).
Proof.
  assert (Hr : Autocomplete.reachable
    (Autocomplete.run (Autocomplete.mount "Once upon" true)
       [Autocomplete.TimerFires 0;
        Autocomplete.Respond 0 (Autocomplete.Predicted (Some " a time"))]))
    by (eexists _, _, _; reflexivity).
  assert (Hs : Autocomplete.suggestion
    (Autocomplete.run (Autocomplete.mount "Once upon" true)
       [Autocomplete.TimerFires 0;
        Autocomplete.Respond 0 (Autocomplete.Predicted (Some " a time"))]) <> "")
    by discriminate.
  pose proof (tab_accepts_suggestion "Once upon" _ Hr eq_refl Hs) as H.
  split; [exact Hr | split; [reflexivity | split; [exact Hs|]]].
  destruct (Editor.handle_key_down "Tab" "Once upon" _) as [[p c] a].
  destruct H as (_ & Hc & _). rewrite Hc. reflexivity.
Defined.

(** A grammar response changes the stored matches only when it answers
    a check of the text as it is now, at least 10 characters long: the
    answer to a check of an older text never sets the underlines. *)
Theorem grammar_matches_for_current_text (s : GrammarCheck.state) (n : nat)
    (o : GrammarCheck.check_outcome) :
  GrammarCheck.reachable s ->
  GrammarCheck.matches (GrammarCheck.step s (GrammarCheck.Respond n o)) =
    GrammarCheck.matches s \/
  (In (n, GrammarCheck.text s) (GrammarCheck.in_flight s) /\
   10 <= String.length (GrammarCheck.text s)).
Proof.
  intros Hr. pose proof (GrammarCheckFacts.gc_reachable_inv s Hr) as Hinv.
  simpl. destruct (Autocomplete.find_id n (GrammarCheck.in_flight s)) as [t|] eqn:Ef;
    [|now left].
  apply AutocompleteFacts.find_id_in in Ef.
  destruct (GrammarCheck.is_aborted n s) eqn:Ea; [now left|].
  right. destruct (GrammarCheckFacts.inv_live s Hinv n t
                     (in_or_app _ _ _ (or_intror Ef)) Ea) as (_ & Ht & Hsh).
  subst t. split; [exact Ef|].
  unfold GrammarCheckFacts.short in Hsh.
  apply Bool.orb_false_iff in Hsh as [_ Hlt]. now apply Nat.ltb_ge in Hlt.
Qed.

Lemma grammar_matches_for_current_text_witness :
  GrammarCheck.reachable
    (GrammarCheck.run (GrammarCheck.mount "The cat sat")
       [GrammarCheck.TimerFires 0; GrammarCheck.SetText "The cat sat on"]) /\
  GrammarCheck.matches
    (GrammarCheck.step
       (GrammarCheck.run (GrammarCheck.mount "The cat sat")
          [GrammarCheck.TimerFires 0; GrammarCheck.SetText "The cat sat on"])
       (GrammarCheck.Respond 0 GrammarCheck.CheckFailed)) = JArr [].
Proof.
  assert (Hr : GrammarCheck.reachable
    (GrammarCheck.run (GrammarCheck.mount "The cat sat")
       [GrammarCheck.TimerFires 0; GrammarCheck.SetText "The cat sat on"]))
    by (eexists _, _; reflexivity).
  split; [exact Hr|].
  destruct (grammar_matches_for_current_text _ 0 GrammarCheck.CheckFailed Hr)
    as [H|[H _]].
  - rewrite H. reflexivity.
  - exfalso. simpl in H. intuition discriminate.
Defined.

(** Whenever the text is shorter than 10 characters, the hook holds no
    matches, whatever checks come back late. *)
Theorem grammar_short_text_no_matches (s : GrammarCheck.state) :
  GrammarCheck.reachable s ->
  String.length (GrammarCheck.text s) < 10 ->
  GrammarCheck.matches s = JArr [].
Proof.
  intros Hr Hl. apply (GrammarCheckFacts.inv_short s
                         (GrammarCheckFacts.gc_reachable_inv s Hr)).
  unfold GrammarCheckFacts.short. apply Nat.ltb_lt in Hl. rewrite Hl.
  apply Bool.orb_true_r.
Qed.

Lemma grammar_short_text_no_matches_witness :
  GrammarCheck.reachable
    (GrammarCheck.run (GrammarCheck.mount "The cat sat")
       [GrammarCheck.TimerFires 0; GrammarCheck.SetText "The cat";
        GrammarCheck.Respond 0 (GrammarCheck.Checked
          (JObj [("matches", JArr [JObj [("offset", JNum 4)]])]))]) /\
  GrammarCheck.matches
    (GrammarCheck.run (GrammarCheck.mount "The cat sat")
       [GrammarCheck.TimerFires 0; GrammarCheck.SetText "The cat";
        GrammarCheck.Respond 0 (GrammarCheck.Checked
          (JObj [("matches", JArr [JObj [("offset", JNum 4)]])]))]) = JArr [].
Proof.
  assert (Hr : GrammarCheck.reachable
    (GrammarCheck.run (GrammarCheck.mount "The cat sat")
       [GrammarCheck.TimerFires 0; GrammarCheck.SetText "The cat";
        GrammarCheck.Respond 0 (GrammarCheck.Checked
          (JObj [("matches", JArr [JObj [("offset", JNum 4)]])]))]))
    by (eexists _, _; reflexivity).
  split; [exact Hr|].
  apply (grammar_short_text_no_matches _ Hr). simpl. lia.
Defined.

(** Shortening the text below 10 characters while a check is running
    clears the matches but leaves [isChecking] set: the aborted check's
    [finally] does not reset it, and no later timer or response (short of
    a new text) does either. *)
Theorem grammar_checking_flag_kept_after_shortening (s : GrammarCheck.state)
    (n : nat) (t : string) (evs : list GrammarCheck.event) :
  GrammarCheck.reachable s ->
  In (n, GrammarCheck.text s) (GrammarCheck.in_flight s) ->
  GrammarCheck.is_aborted n s = false ->
  String.length t < 10 ->
  (forall ev u, In ev evs -> ev <> GrammarCheck.SetText u) ->
  GrammarCheck.isChecking
    (GrammarCheck.run (GrammarCheck.step s (GrammarCheck.SetText t)) evs) = true /\
  GrammarCheck.matches
    (GrammarCheck.run (GrammarCheck.step s (GrammarCheck.SetText t)) evs) = JArr [].
Proof.
  intros Hr Hin Hab Hlt Hevs.
  pose proof (GrammarCheckFacts.gc_reachable_inv s Hr) as Hinv.
  pose proof (GrammarCheckFacts.inv_busy s Hinv n _ Hin Hab) as Hbusy.
  destruct (GrammarCheckFacts.inv_live s Hinv n _ (in_or_app _ _ _ (or_intror Hin)) Hab)
    as (_ & _ & Hsh).
  assert (Hne : String.eqb t (GrammarCheck.text s) = false).
  { apply String.eqb_neq. intros ->. unfold GrammarCheckFacts.short in Hsh.
    apply Bool.orb_false_iff in Hsh as [_ Hsh]. apply Nat.ltb_ge in Hsh. lia. }
  pose proof (GrammarCheckFacts.gc_run_cleanup_settled s t Hinv) as Hst.
  simpl. rewrite Hne.
  set (s0 := GrammarCheck.with_text t (GrammarCheck.run_cleanup s)) in *.
  assert (Hk0 : GrammarCheck.isChecking s0 = true).
  { subst s0. unfold GrammarCheck.run_cleanup, GrammarCheck.abort_ref.
    destruct (GrammarCheck.cleanup s); simpl; [|exact Hbusy].
    destruct (GrammarCheck.controller_ref s); exact Hbusy. }
  assert (Heff : GrammarCheck.effect s0 = GrammarCheck.set_matches (JArr []) s0).
  { unfold GrammarCheck.effect. apply Nat.ltb_lt in Hlt. subst s0. simpl.
    rewrite Hlt, Bool.orb_true_r. reflexivity. }
  rewrite Heff.
  apply GrammarCheckFacts.dead_run; [| exact Hk0 | reflexivity | exact Hevs].
  intros m u Hm. apply (GrammarCheckFacts.st_dead s0 Hst m u Hm).
Qed.

Lemma grammar_checking_flag_kept_after_shortening_witness :
  GrammarCheck.reachable
    (GrammarCheck.run (GrammarCheck.mount "The cat sat") [GrammarCheck.TimerFires 0]) /\
  GrammarCheck.isChecking
    (GrammarCheck.run
       (GrammarCheck.step
          (GrammarCheck.run (GrammarCheck.mount "The cat sat")
             [GrammarCheck.TimerFires 0])
          (GrammarCheck.SetText "The cat"))
       [GrammarCheck.Respond 0 GrammarCheck.CheckFailed]) = true.
Proof.
  assert (Hr : GrammarCheck.reachable
    (GrammarCheck.run (GrammarCheck.mount "The cat sat") [GrammarCheck.TimerFires 0]))
    by (eexists _, _; reflexivity).
  split; [exact Hr|].
  refine (proj1 (grammar_checking_flag_kept_after_shortening _ 0 "The cat"
            [GrammarCheck.Respond 0 GrammarCheck.CheckFailed] Hr _ _ _ _)).
  - simpl. left. reflexivity.
  - reflexivity.
  - simpl. lia.
  - intros ev u [<-|[]]. discriminate.
Defined.

(** For the check of the current text, a failed request (other than a
    cancellation) clears the matches and resets [isChecking]; an answer
    whose [matches] is missing or falsy keeps the matches but still resets
    [isChecking]. *)
Theorem grammar_response_outcomes (s : GrammarCheck.state) (n : nat) (t : string) :
  In (n, t) (GrammarCheck.in_flight s) ->
  GrammarCheck.is_aborted n s = false ->
  (GrammarCheck.matches (GrammarCheck.step s (GrammarCheck.Respond n GrammarCheck.CheckFailed))
     = JArr [] /\
   GrammarCheck.isChecking
     (GrammarCheck.step s (GrammarCheck.Respond n GrammarCheck.CheckFailed)) = false) /\
  (forall d, GrammarCheck.matches_of d = None ->
   GrammarCheck.matches
     (GrammarCheck.step s (GrammarCheck.Respond n (GrammarCheck.Checked d)))
     = GrammarCheck.matches s /\
   GrammarCheck.isChecking
     (GrammarCheck.step s (GrammarCheck.Respond n (GrammarCheck.Checked d))) = false).
Proof.
  intros Hin Hab.
  assert (Hf : exists u, Autocomplete.find_id n (GrammarCheck.in_flight s) = Some u).
  { unfold Autocomplete.find_id.
    destruct (find (fun p => Nat.eqb (fst p) n) (GrammarCheck.in_flight s)) eqn:E.
    - eexists. reflexivity.
    - exfalso. apply (find_none _ _ E) in Hin. simpl in Hin.
      now rewrite Nat.eqb_refl in Hin. }
  destruct Hf as [u Hf]. simpl. rewrite Hf, Hab. simpl.
  split; [split; reflexivity|].
  intros d Hd. rewrite Hd. split; reflexivity.
Qed.

Lemma grammar_response_outcomes_witness :
  In (0, "The cat sat"%string)
     (GrammarCheck.in_flight
        (GrammarCheck.run (GrammarCheck.mount "The cat sat") [GrammarCheck.TimerFires 0])) /\
  GrammarCheck.is_aborted 0
    (GrammarCheck.run (GrammarCheck.mount "The cat sat") [GrammarCheck.TimerFires 0])
    = false /\
  GrammarCheck.matches
    (GrammarCheck.step
       (GrammarCheck.run (GrammarCheck.mount "The cat sat") [GrammarCheck.TimerFires 0])
       (GrammarCheck.Respond 0 (GrammarCheck.Checked (JObj [("error", JStr "busy")]))))
  = JArr [].
Proof.
  assert (Hin : In (0, "The cat sat"%string)
     (GrammarCheck.in_flight
        (GrammarCheck.run (GrammarCheck.mount "The cat sat") [GrammarCheck.TimerFires 0])))
    by (simpl; left; reflexivity).
  assert (Hab : GrammarCheck.is_aborted 0
    (GrammarCheck.run (GrammarCheck.mount "The cat sat") [GrammarCheck.TimerFires 0])
    = false) by reflexivity.
  split; [exact Hin | split; [exact Hab|]].
  destruct (proj2 (grammar_response_outcomes _ 0 _ Hin Hab)
              (JObj [("error", JStr "busy")]) eq_refl) as [H _].
  rewrite H. reflexivity.
Defined.

(** ** The editor's Keep/Undo flow with other content changes *)
Module PageHandlersFacts.
Import Page PageHandlers.

Lemma apply_changes_keeps (st : page_state) (cs : list content_change) :
  original_content (apply_changes st cs) = original_content st /\
  show_keep_undo_controls (apply_changes st cs) = show_keep_undo_controls st /\
  improving (apply_changes st cs) = improving st.
Proof.
  unfold apply_changes. revert st. induction cs as [|c cs IH]; intros st; simpl;
    [auto|].
  destruct (IH (apply_change st c)) as (H1 & H2 & H3). rewrite H1, H2, H3.
  destruct c as [v|[r| |]|[t f| |]]; simpl; auto.
Qed.

Lemma improve_flow_start_some (st : page_state) (captured : string)
    (st1 : page_state) :
  improve_flow_start st = Some (captured, st1) ->
  captured = content st /\ content st1 = content st /\
  original_content st1 = original_content st /\
  show_keep_undo_controls st1 = show_keep_undo_controls st /\
  improving st1 = true /\ trim_is_empty (content st) = false.
Proof.
  unfold improve_flow_start. destruct (trim_is_empty (content st)) eqn:E;
    [discriminate|]. intros [= <- <-]. simpl. repeat split; reflexivity.
Qed.

End PageHandlersFacts.

(** After a successful improve, Undo brings back the text the improve
    started from, whatever typing, rewrites or uploads came in between:
    they are all discarded, and the Keep/Undo controls stay shown until
    then. *)
Theorem undo_discards_changes_after_improve (st0 st1 : Page.page_state)
    (captured improved : string) (cs : list PageHandlers.content_change) :
  Page.improve_flow_start st0 = Some (captured, st1) ->
  Page.show_keep_undo_controls
    (PageHandlers.apply_changes
       (Page.improve_flow_finish captured (Page.ImproveOk improved) st1) cs) = true /\
  Page.content
    (Page.handle_undo_changes
       (PageHandlers.apply_changes
          (Page.improve_flow_finish captured (Page.ImproveOk improved) st1) cs))
  = Page.content st0.
Proof.
  intros Hs. destruct (PageHandlersFacts.improve_flow_start_some _ _ _ Hs)
    as (-> & _).
  destruct (PageHandlersFacts.apply_changes_keeps
              (Page.improve_flow_finish (Page.content st0) (Page.ImproveOk improved) st1)
              cs) as (Ho & Hc & _).
  split; [exact Hc|]. simpl. exact Ho.
Qed.

Lemma undo_discards_changes_after_improve_witness :
  Page.improve_flow_start PageExamples.draft =
    Some (Page.content PageExamples.draft,
          {| Page.content := Page.content PageExamples.draft;
             Page.original_content := Page.original_content PageExamples.draft;
             Page.show_keep_undo_controls :=
               Page.show_keep_undo_controls PageExamples.draft;
             Page.improving := true |}) /\
  Page.content
    (Page.handle_undo_changes
       (PageHandlers.apply_changes
          (Page.improve_flow_finish (Page.content PageExamples.draft)
             (Page.ImproveOk "The night came.")
             {| Page.content := Page.content PageExamples.draft;
                Page.original_content := Page.original_content PageExamples.draft;
                Page.show_keep_undo_controls :=
                  Page.show_keep_undo_controls PageExamples.draft;
                Page.improving := true |})
          [PageHandlers.Typed "The night came. It rained.";
           PageHandlers.Rewritten (PageHandlers.RewriteOk "Night fell; rain followed.")]))
  = Page.content PageExamples.draft.
Proof.
  assert (Hs : Page.improve_flow_start PageExamples.draft =
    Some (Page.content PageExamples.draft,
          {| Page.content := Page.content PageExamples.draft;
             Page.original_content := Page.original_content PageExamples.draft;
             Page.show_keep_undo_controls :=
               Page.show_keep_undo_controls PageExamples.draft;
             Page.improving := true |})) by reflexivity.
  split; [exact Hs|].
  exact (proj2 (undo_discards_changes_after_improve _ _ _ "The night came."
           [PageHandlers.Typed "The night came. It rained.";
            PageHandlers.Rewritten (PageHandlers.RewriteOk "Night fell; rain followed.")]
           Hs)).
Defined.

(** The improve request carries the text as it was when Improve was
    clicked; typing, rewrites or uploads that land while it runs are
    overwritten by the improved text when it succeeds, and Undo then goes
    back to the text from before them: they are lost. *)
Theorem changes_during_improve_are_lost (st0 st1 : Page.page_state)
    (captured improved : string) (cs : list PageHandlers.content_change) :
  Page.improve_flow_start st0 = Some (captured, st1) ->
  Page.content (Page.improve_flow_finish captured (Page.ImproveOk improved)
                  (PageHandlers.apply_changes st1 cs)) = improved /\
  Page.original_content
    (Page.improve_flow_finish captured (Page.ImproveOk improved)
       (PageHandlers.apply_changes st1 cs)) = Page.content st0 /\
  Page.content
    (Page.handle_undo_changes
       (Page.improve_flow_finish captured (Page.ImproveOk improved)
          (PageHandlers.apply_changes st1 cs))) = Page.content st0.
Proof.
  intros Hs. destruct (PageHandlersFacts.improve_flow_start_some _ _ _ Hs)
    as (-> & _). simpl. auto.
Qed.

Lemma changes_during_improve_are_lost_witness :
  Page.improve_flow_start PageExamples.draft =
    Some (Page.content PageExamples.draft,
          {| Page.content := Page.content PageExamples.draft;
             Page.original_content := Page.original_content PageExamples.draft;
             Page.show_keep_undo_controls :=
               Page.show_keep_undo_controls PageExamples.draft;
             Page.improving := true |}) /\
  Page.original_content
    (Page.improve_flow_finish (Page.content PageExamples.draft)
       (Page.ImproveOk "The night came.")
       (PageHandlers.apply_changes
          {| Page.content := Page.content PageExamples.draft;
             Page.original_content := Page.original_content PageExamples.draft;
             Page.show_keep_undo_controls :=
               Page.show_keep_undo_controls PageExamples.draft;
             Page.improving := true |}
          [PageHandlers.Typed "Darkness fell; the wind howled. Then silence."]))
  = Page.content PageExamples.draft.
Proof.
  assert (Hs : Page.improve_flow_start PageExamples.draft =
    Some (Page.content PageExamples.draft,
          {| Page.content := Page.content PageExamples.draft;
             Page.original_content := Page.original_content PageExamples.draft;
             Page.show_keep_undo_controls :=
               Page.show_keep_undo_controls PageExamples.draft;
             Page.improving := true |})) by reflexivity.
  split; [exact Hs|].
  exact (proj1 (proj2 (changes_during_improve_are_lost _ _ _ "The night came."
           [PageHandlers.Typed "Darkness fell; the wind howled. Then silence."] Hs))).
Defined.

(** Improving twice and then pressing Undo brings back the result of the
    first improve, not the text from before it: the second improve
    overwrites the saved original. *)
Theorem undo_after_two_improves (st0 : Page.page_state) (i1 i2 : string) :
  Page.trim_is_empty (Page.content st0) = false ->
  Page.trim_is_empty i1 = false ->
  match Page.improve_flow_start st0 with
  | Some (c0, st1) =>
      match Page.improve_flow_start
              (Page.improve_flow_finish c0 (Page.ImproveOk i1) st1) with
      | Some (c1, st3) =>
          Page.content (Page.handle_undo_changes
                          (Page.improve_flow_finish c1 (Page.ImproveOk i2) st3)) = i1
      | None => False
      end
  | None => False
  end.
Proof.
  intros H0 H1. unfold Page.improve_flow_start. rewrite H0. simpl.
  rewrite H1. reflexivity.
Qed.

Lemma undo_after_two_improves_witness :
  Page.trim_is_empty (Page.content PageExamples.draft) = false /\
  Page.trim_is_empty "The night came." = false /\
  match Page.improve_flow_start PageExamples.draft with
  | Some (c0, st1) =>
      match Page.improve_flow_start
              (Page.improve_flow_finish c0 (Page.ImproveOk "The night came.") st1) with
      | Some (c1, st3) =>
          Page.content (Page.handle_undo_changes
                          (Page.improve_flow_finish c1
                             (Page.ImproveOk "Night came at last.") st3))
          = "The night came."%string
      | None => False
      end
  | None => False
  end.
Proof.
  assert (H0 : Page.trim_is_empty (Page.content PageExamples.draft) = false)
    by reflexivity.
  assert (H1 : Page.trim_is_empty "The night came." = false) by reflexivity.
  split; [exact H0 | split; [exact H1|]].
  exact (undo_after_two_improves PageExamples.draft "The night came."
           "Night came at last." H0 H1).
Defined.



(** When every match lies inside the text, the overlay shows as many
    characters as the text has plus the total overlap of the matches in
    ascending offset order: overlapping matches make it show characters
    twice, and it shows the text exactly only when no two overlap. *)
Theorem grammar_segments_length (text : string) (ms : list Grammar.grammar_match) :
  (forall m, In m ms ->
             Grammar.offset m + Grammar.match_length m <= String.length text) ->
  String.length (String.concat "" (map Grammar.seg_text (Grammar.segments text ms))) =
  String.length text + Grammar.overlap 0 (Grammar.sort_by_offset ms).
Proof.
  intros Hb. destruct ms as [|m0 ms0]; simpl; [lia|].
  rewrite JsFacts.length_units, JsFacts.units_concat_empty.
  unfold Grammar.segments.
  rewrite GrammarFacts.segments_from_length; [lia | lia |].
  intros m Hm. apply Hb, GrammarFacts.sort_by_offset_in, Hm.
Qed.

Lemma grammar_segments_length_witness :
  (forall m, In m
     [{| Grammar.offset := 0; Grammar.match_length := 5;
         Grammar.msgId := "a"; Grammar.rule_id := "R1";
         Grammar.message := ""; Grammar.replacements := [] |};
      {| Grammar.offset := 2; Grammar.match_length := 2;
         Grammar.msgId := "b"; Grammar.rule_id := "R2";
         Grammar.message := ""; Grammar.replacements := [] |}] ->
     Grammar.offset m + Grammar.match_length m <= String.length "abcdefgh") /\
  String.length (String.concat "" (map Grammar.seg_text (Grammar.segments "abcdefgh"
     [{| Grammar.offset := 0; Grammar.match_length := 5;
         Grammar.msgId := "a"; Grammar.rule_id := "R1";
         Grammar.message := ""; Grammar.replacements := [] |};
      {| Grammar.offset := 2; Grammar.match_length := 2;
         Grammar.msgId := "b"; Grammar.rule_id := "R2";
         Grammar.message := ""; Grammar.replacements := [] |}]))) = 11.
Proof.
  assert (Hb : forall m, In m
     [{| Grammar.offset := 0; Grammar.match_length := 5;
         Grammar.msgId := "a"; Grammar.rule_id := "R1";
         Grammar.message := ""; Grammar.replacements := [] |};
      {| Grammar.offset := 2; Grammar.match_length := 2;
         Grammar.msgId := "b"; Grammar.rule_id := "R2";
         Grammar.message := ""; Grammar.replacements := [] |}] ->
     Grammar.offset m + Grammar.match_length m <= String.length "abcdefgh")
    by (intros m [<-|[<-|[]]]; simpl; lia).
  split; [exact Hb|].
  rewrite (grammar_segments_length _ _ Hb). reflexivity.
Defined.
